(** * MaterialSlider (src/slider/slider.js): a shallow embedding

    The slider component decorates a range control of the host document,
    listens to its events and recomputes a fill ratio from the control's
    [value], [min] and [max].  The script runs against the browser's DOM;
    this file models the part of it the script touches:

    - JavaScript numbers are IEEE 754 binary64 values: the kernel's
      primitive [float], whose operations round to nearest even and whose
      [=?] is the comparison [===] makes on two numbers;
    - the document is a store of nodes addressed by reference, so that the
      control and the decoration nodes are shared, mutable objects;
    - a method is a computation over the store that completes normally or
      throws, the store as it was at the throw being kept. *)

From Stdlib Require Import ZArith Floats Lia.
From stdpp Require Import base list strings.

Local Open Scope string_scope.

(* A decimal literal denotes the nearest binary64 value, in JavaScript as
   here. *)
Set Warnings "-inexact-float".

(** ** Numbers *)

(** [ToBoolean] on a number: [+0], [-0] and [NaN] are falsy. *)
Definition truthy (x : float) : bool := negb (is_zero x || is_nan x).

(** ** The document *)

(** A reference to a node: its index in the store. *)
Abbreviation NodeId := nat (only parsing).

(** The three callbacks the component registers; each is a method bound to
    the component instance. *)
Inductive Listener := OnInput | OnChange | OnMouseUp.

(** The two inline style properties the script writes, as the numbers it
    last assigned to them; [None] is a property that was never assigned.
    How the host's style engine reads an assigned number is outside the
    model. *)
Record Style := mkStyle {
  flex : option float;
  webkitFlex : option float
}.

(** A node of the document.  [value], [min], [max] and [disabled] are the
    attributes of the control as the component's contract describes them
    (numeric, and a boolean), held as plain properties: what a native
    control does to an assigned value is outside the model.  On a freshly
    created [div] the numeric ones read as [NaN], which is what arithmetic
    on [undefined] yields. *)
Record Node := mkNode {
  tagName : string;
  classList : list string;
  parentElement : option NodeId;
  children : list NodeId;
  style : Style;
  listeners : list (string * Listener);
  value : float;
  min : float;
  max : float;
  disabled : bool
}.

(** The component instance ([this]). A [None] reference is [null] or
    [undefined]. *)
Record MaterialSlider := mkSlider {
  element_ : option NodeId;
  isIE_ : bool;
  backgroundLower_ : option NodeId;
  backgroundUpper_ : option NodeId
}.

Record World := mkWorld {
  nodes : list Node;
  activeElement : option NodeId;
  self : MaterialSlider
}.

(** ** Computations *)

(** [BadRef] is not a JavaScript outcome: it marks the use of a reference
    that is outside the store, which a script cannot build. *)
Inductive Exn := TypeError | NotFoundError | BadRef.

Inductive Completion (A : Type) :=
  | Normal (a : A)
  | Throw (e : Exn).
Arguments Normal {A} a.
Arguments Throw {A} e.

Definition M (A : Type) : Type := World -> Completion A * World.

Definition ret {A} (a : A) : M A := fun w => (Normal a, w).

Definition bind {A B} (m : M A) (k : A -> M B) : M B :=
  fun w => match m w with
           | (Normal a, w') => k a w'
           | (Throw e, w') => (Throw e, w')
           end.

Definition throw {A} (e : Exn) : M A := fun w => (Throw e, w).

Declare Scope js_scope.
Delimit Scope js_scope with js.
Notation "x <- m ;; k" := (bind m (fun x => k))
  (at level 100, m at next level, right associativity) : js_scope.
Notation "m ;;; k" := (bind m (fun _ => k))
  (at level 100, right associativity) : js_scope.
Local Open Scope js_scope.

Definition getThis : M MaterialSlider := fun w => (Normal (self w), w).

Definition setThis (s : MaterialSlider) : M unit :=
  fun w => (Normal tt, mkWorld (nodes w) (activeElement w) s).

(** Following a reference held in a property: a property access on [null]
    or [undefined] throws a [TypeError]. *)
Definition deref (r : option NodeId) : M NodeId :=
  match r with
  | Some i => ret i
  | None => throw TypeError
  end.

Definition getNode (i : NodeId) : M Node :=
  fun w => match nodes w !! i with
           | Some n => (Normal n, w)
           | None => (Throw BadRef, w)
           end.

Definition updNode (i : NodeId) (f : Node -> Node) : M unit :=
  fun w => match nodes w !! i with
           | Some n => (Normal tt, mkWorld (<[i := f n]> (nodes w)) (activeElement w) (self w))
           | None => (Throw BadRef, w)
           end.

(** ** Node updates *)

Definition set_classList (c : list string) (n : Node) : Node :=
  mkNode (tagName n) c (parentElement n) (children n) (style n)
         (listeners n) (value n) (min n) (max n) (disabled n).

Definition set_parentElement (p : option NodeId) (n : Node) : Node :=
  mkNode (tagName n) (classList n) p (children n) (style n)
         (listeners n) (value n) (min n) (max n) (disabled n).

Definition set_children (c : list NodeId) (n : Node) : Node :=
  mkNode (tagName n) (classList n) (parentElement n) c (style n)
         (listeners n) (value n) (min n) (max n) (disabled n).

Definition set_style (s : Style) (n : Node) : Node :=
  mkNode (tagName n) (classList n) (parentElement n) (children n) s
         (listeners n) (value n) (min n) (max n) (disabled n).

Definition set_listeners (l : list (string * Listener)) (n : Node) : Node :=
  mkNode (tagName n) (classList n) (parentElement n) (children n) (style n)
         l (value n) (min n) (max n) (disabled n).

Definition set_value (v : float) (n : Node) : Node :=
  mkNode (tagName n) (classList n) (parentElement n) (children n) (style n)
         (listeners n) v (min n) (max n) (disabled n).

Definition set_disabled (b : bool) (n : Node) : Node :=
  mkNode (tagName n) (classList n) (parentElement n) (children n) (style n)
         (listeners n) (value n) (min n) (max n) b.

Definition set_flex (x : float) (n : Node) : Node :=
  set_style (mkStyle (Some x) (webkitFlex (style n))) n.

Definition set_webkitFlex (x : float) (n : Node) : Node :=
  set_style (mkStyle (flex (style n)) (Some x)) n.

(** ** The DOM operations the script calls *)

(** [classList.add(c)]: the token is appended unless it is there already. *)
Definition token_add (c : string) (l : list string) : list string :=
  if bool_decide (c ∈ l) then l else l ++ [c].

(** [classList.remove(c)]. *)
Definition token_remove (c : string) (l : list string) : list string :=
  filter (λ x, x ≠ c) l.

Definition classList_add (i : NodeId) (c : string) : M unit :=
  updNode i (λ n, set_classList (token_add c (classList n)) n).

Definition classList_remove (i : NodeId) (c : string) : M unit :=
  updNode i (λ n, set_classList (token_remove c (classList n)) n).

(** [document.createElement(tag)]: a new node, in no tree. *)
Definition createElement (tag : string) : M NodeId :=
  fun w =>
    let n := mkNode tag [] None [] (mkStyle None None) [] nan nan nan false in
    (Normal (length (nodes w)),
     mkWorld (nodes w ++ [n]) (activeElement w) (self w)).

(** Taking a node out of the child list of its parent, if it has one. *)
Definition detach (i : NodeId) : M unit :=
  n <- getNode i ;;
  match parentElement n with
  | None => ret tt
  | Some p =>
      updNode p (λ pn, set_children (filter (λ x, x ≠ i) (children pn)) pn) ;;;
      updNode i (set_parentElement None)
  end.

Fixpoint insert_before (new ref : NodeId) (l : list NodeId) : list NodeId :=
  match l with
  | [] => []
  | x :: l' => if bool_decide (x = ref) then new :: x :: l'
               else x :: insert_before new ref l'
  end.

(** [parent.insertBefore(new, ref)]: [ref] must be a child of [parent]. *)
Definition insertBefore (parent new ref : NodeId) : M unit :=
  pn <- getNode parent ;;
  if bool_decide (ref ∈ children pn) then
    detach new ;;;
    updNode parent (λ pn, set_children (insert_before new ref (children pn)) pn) ;;;
    updNode new (set_parentElement (Some parent))
  else throw NotFoundError.

(** [parent.removeChild(child)]. *)
Definition removeChild (parent child : NodeId) : M unit :=
  pn <- getNode parent ;;
  if bool_decide (child ∈ children pn) then
    updNode parent (λ pn, set_children (filter (λ x, x ≠ child) (children pn)) pn) ;;;
    updNode child (set_parentElement None)
  else throw NotFoundError.

(** [parent.appendChild(child)]. *)
Definition appendChild (parent child : NodeId) : M unit :=
  getNode parent ;;;
  detach child ;;;
  updNode parent (λ pn, set_children (children pn ++ [child]) pn) ;;;
  updNode child (set_parentElement (Some parent)).

(** [node.addEventListener(type, callback)]; every [bind] makes a new
    callback, so none is ever a duplicate. *)
Definition addEventListener (i : NodeId) (type : string) (l : Listener) : M unit :=
  updNode i (λ n, set_listeners (listeners n ++ [(type, l)]) n).

(** [node.blur()]: the node gives up the focus if it has it. *)
Definition blur (i : NodeId) : M unit :=
  getNode i ;;;
  fun w =>
    (Normal tt,
     mkWorld (nodes w)
             (if bool_decide (activeElement w = Some i) then None else activeElement w)
             (self w)).

(** ** The component *)

(** [MaterialSlider.prototype.CssClasses_]. *)
Definition IE_CONTAINER := "mdl-slider__ie-container".
Definition SLIDER_CONTAINER := "mdl-slider__container".
Definition BACKGROUND_FLEX := "mdl-slider__background-flex".
Definition BACKGROUND_LOWER := "mdl-slider__background-lower".
Definition BACKGROUND_UPPER := "mdl-slider__background-upper".
Definition IS_LOWEST_VALUE := "is-lowest-value".
Definition IS_UPGRADED := "is-upgraded".

(** [MaterialSlider.prototype.updateValueStyles_]. *)
Definition updateValueStyles_ : M unit :=
  this <- getThis ;;
  el <- deref (element_ this) ;;
  c <- getNode el ;;
  let fraction := ((value c - min c) / (max c - min c))%float in
  (if (fraction =? 0)%float
   then classList_add el IS_LOWEST_VALUE
   else classList_remove el IS_LOWEST_VALUE) ;;;
  if negb (isIE_ this) then
    lo <- deref (backgroundLower_ this) ;;
    updNode lo (set_flex fraction) ;;;
    updNode lo (set_webkitFlex fraction) ;;;
    up <- deref (backgroundUpper_ this) ;;
    updNode up (set_flex (1 - fraction)%float) ;;;
    updNode up (set_webkitFlex (1 - fraction)%float)
  else ret tt.

(** [MaterialSlider.prototype.onInput_]. *)
Definition onInput_ (target : NodeId) : M unit := updateValueStyles_.

(** [MaterialSlider.prototype.onChange_]. *)
Definition onChange_ (target : NodeId) : M unit := updateValueStyles_.

(** [MaterialSlider.prototype.onMouseUp_]: [event.target.blur()]. *)
Definition onMouseUp_ (target : NodeId) : M unit := blur target.

(** [MaterialSlider.prototype.disable]. *)
Definition disable : M unit :=
  this <- getThis ;;
  el <- deref (element_ this) ;;
  updNode el (set_disabled true).

(** [MaterialSlider.prototype.enable]. *)
Definition enable : M unit :=
  this <- getThis ;;
  el <- deref (element_ this) ;;
  updNode el (set_disabled false).

(** [MaterialSlider.prototype.change]; the argument is [None] when the
    caller passes none ([undefined]). *)
Definition change (v : option float) : M unit :=
  (match v with
   | Some x =>
       if truthy x then
         this <- getThis ;;
         el <- deref (element_ this) ;;
         updNode el (set_value x)
       else ret tt
   | None => ret tt
   end) ;;;
  updateValueStyles_.

(** [MaterialSlider.prototype.init]. *)
Definition init : M unit :=
  this <- getThis ;;
  match element_ this with
  | None => ret tt
  | Some el =>
      (if isIE_ this then
         containerIE <- createElement "div" ;;
         classList_add containerIE IE_CONTAINER ;;;
         c <- getNode el ;;
         p <- deref (parentElement c) ;;
         insertBefore p containerIE el ;;;
         c <- getNode el ;;
         p <- deref (parentElement c) ;;
         removeChild p el ;;;
         appendChild containerIE el
       else
         container <- createElement "div" ;;
         classList_add container SLIDER_CONTAINER ;;;
         c <- getNode el ;;
         p <- deref (parentElement c) ;;
         insertBefore p container el ;;;
         c <- getNode el ;;
         p <- deref (parentElement c) ;;
         removeChild p el ;;;
         appendChild container el ;;;
         backgroundFlex <- createElement "div" ;;
         classList_add backgroundFlex BACKGROUND_FLEX ;;;
         appendChild container backgroundFlex ;;;
         lo <- createElement "div" ;;
         this <- getThis ;;
         setThis (mkSlider (element_ this) (isIE_ this) (Some lo) (backgroundUpper_ this)) ;;;
         classList_add lo BACKGROUND_LOWER ;;;
         appendChild backgroundFlex lo ;;;
         up <- createElement "div" ;;
         this <- getThis ;;
         setThis (mkSlider (element_ this) (isIE_ this) (backgroundLower_ this) (Some up)) ;;;
         classList_add up BACKGROUND_UPPER ;;;
         appendChild backgroundFlex up) ;;;
      addEventListener el "input" OnInput ;;;
      addEventListener el "change" OnChange ;;;
      addEventListener el "mouseup" OnMouseUp ;;;
      updateValueStyles_ ;;;
      classList_add el IS_UPGRADED
  end.

(** The constructor: [element] is the reference the caller hands over and
    [msPointerEnabled] the truth value of
    [window.navigator.msPointerEnabled]. *)
Definition new_MaterialSlider (element : option NodeId) (msPointerEnabled : bool) : M unit :=
  setThis (mkSlider element msPointerEnabled None None) ;;;
  init.

(** Running a registered callback on an event whose target is [target]. *)
Definition call (l : Listener) (target : NodeId) : M unit :=
  match l with
  | OnInput => onInput_ target
  | OnChange => onChange_ target
  | OnMouseUp => onMouseUp_ target
  end.

(** An event of type [type] fired at [target]: the callbacks registered on
    the target for that type run in registration order.  What a callback
    throws is reported by the host and does not stop the dispatch. *)
Fixpoint run_listeners (ls : list (string * Listener)) (type : string)
    (target : NodeId) (w : World) : World :=
  match ls with
  | [] => w
  | (ty, l) :: ls' =>
      let w' := if bool_decide (ty = type) then snd (call l target w) else w in
      run_listeners ls' type target w'
  end.

Definition dispatchEvent (type : string) (target : NodeId) (w : World) : World :=
  match nodes w !! target with
  | Some n => run_listeners (listeners n) type target w
  | None => w
  end.

(** ** Small runs *)

(** A document with a body (node 0) holding one control (node 1). *)
Definition page (v mn mx : float) : World :=
  mkWorld
    [ mkNode "body" [] None [1] (mkStyle None None) [] nan nan nan false;
      mkNode "input" ["mdl-slider"; "mdl-js-slider"] (Some 0) [] (mkStyle None None) []
             v mn mx false ]
    (Some 1)
    (mkSlider None false None None).

(** The page once the component has been constructed on the control. *)
Definition upgraded_page (ie : bool) (v mn mx : float) : World :=
  snd (new_MaterialSlider (Some 1) ie (page v mn mx)).

(** The callbacks [init] registers on the control, in order. *)
Definition registered : list (string * Listener) :=
  [("input", OnInput); ("change", OnChange); ("mouseup", OnMouseUp)].

(** The control of [upgraded_page]: [lowest] tells whether [init] found
    the quotient equal to zero. *)
Definition upgraded_input (lowest : bool) (v mn mx : float) : Node :=
  mkNode "input"
         (["mdl-slider"; "mdl-js-slider"]
            ++ (if lowest then [IS_LOWEST_VALUE] else []) ++ [IS_UPGRADED])
         (Some 2) [] (mkStyle None None) registered v mn mx false.

(** The page once the component has been constructed on no control. *)
Definition page_without_control : World :=
  snd (new_MaterialSlider None false (page 7 0 10)).

(** Example states: the page upgraded outside the alternate mode, with the
    value inside the range, at its lowest, tiny against a huge range, and
    on an empty range. *)
Definition mid_slider : World := upgraded_page false 3 1 5.
Definition mid_control : Node := upgraded_input false 3 1 5.
Definition low_slider : World := upgraded_page false 2 2 9.
Definition low_control : Node := upgraded_input true 2 2 9.
Definition tiny_slider : World := upgraded_page false 0x1p-600 0 0x1p+600.
Definition tiny_control : Node := upgraded_input true 0x1p-600 0 0x1p+600.
Definition flat_slider : World := upgraded_page false 4 4 4.
Definition flat_control : Node := upgraded_input false 4 4 4.
Definition flat_slider_above : World := upgraded_page false 1 0 0.
Definition flat_control_above : Node := upgraded_input false 1 0 0.

(** ** Predicates on states *)

(** The state after the node at [i] has been replaced by [n]. *)
Definition put (i : NodeId) (n : Node) (w : World) : World :=
  mkWorld (<[i := n]> (nodes w)) (activeElement w) (self w).

(** The state after a new node [n] has been created. *)
Definition grow (n : Node) (w : World) : World :=
  mkWorld (nodes w ++ [n]) (activeElement w) (self w).

(** The state after the component's fields have been set to [s]. *)
Definition with_self (s : MaterialSlider) (w : World) : World :=
  mkWorld (nodes w) (activeElement w) s.

(** A node as [createElement] makes it. *)
Definition blank (tag : string) : Node :=
  mkNode tag [] None [] (mkStyle None None) [] nan nan nan false.

(** The component holds the control [el], whose node is [c]. *)
Definition control (w : World) (el : NodeId) (c : Node) : Prop :=
  element_ (self w) = Some el ∧ nodes w !! el = Some c.

(** The component holds two distinct fill regions, [lo] and [up]. *)
Definition decorated (w : World) (lo up : NodeId) : Prop :=
  backgroundLower_ (self w) = Some lo ∧
  backgroundUpper_ (self w) = Some up ∧
  is_Some (nodes w !! lo) ∧ is_Some (nodes w !! up) ∧ lo ≠ up.

(** What [init] leaves behind on a present control: the control is in the
    document and, outside the alternate mode, so are the fill regions. *)
Definition upgraded (w : World) : Prop :=
  (∃ el c, control w el c) ∧
  (isIE_ (self w) = false → ∃ lo up, decorated w lo up).

(** The quotient [updateValueStyles_] computes from the control [c]. *)
Definition fraction_of (c : Node) : float :=
  ((value c - min c) / (max c - min c))%float.

(** The class list [updateValueStyles_] leaves on the control [c]. *)
Definition marked (c : Node) : list string :=
  if (fraction_of c =? 0)%float
  then token_add IS_LOWEST_VALUE (classList c)
  else token_remove IS_LOWEST_VALUE (classList c).

(** [lifts P w w']: the two states have the same component, focus and
    node references, and each node of [w] is related by [P] to the node
    of [w'] at the same reference. *)
Definition lifts (P : MaterialSlider -> NodeId -> Node -> Node -> Prop)
    (w w' : World) : Prop :=
  self w' = self w ∧ activeElement w' = activeElement w ∧
  length (nodes w') = length (nodes w) ∧
  ∀ i n, nodes w !! i = Some n → ∃ n', nodes w' !! i = Some n' ∧ P (self w) i n n'.

(** The writes of [updateValueStyles_] on a node: the marker class, on the
    control only, and the style, on the fill regions and outside the
    alternate mode only. *)
Definition marker_and_flex_only (s : MaterialSlider) (i : NodeId) (n n' : Node) : Prop :=
  tagName n' = tagName n ∧ parentElement n' = parentElement n ∧
  children n' = children n ∧ listeners n' = listeners n ∧
  value n' = value n ∧ min n' = min n ∧ max n' = max n ∧
  disabled n' = disabled n ∧
  (∀ cl, cl ≠ IS_LOWEST_VALUE → cl ∈ classList n' ↔ cl ∈ classList n) ∧
  (element_ s ≠ Some i → classList n' = classList n) ∧
  (isIE_ s = true ∨ (backgroundLower_ s ≠ Some i ∧ backgroundUpper_ s ≠ Some i) →
   style n' = style n).

(** The writes of [disable] and [enable] on a node: the [disabled]
    attribute of the control. *)
Definition disabled_only (s : MaterialSlider) (i : NodeId) (n n' : Node) : Prop :=
  tagName n' = tagName n ∧ classList n' = classList n ∧
  parentElement n' = parentElement n ∧ children n' = children n ∧
  style n' = style n ∧ listeners n' = listeners n ∧
  value n' = value n ∧ min n' = min n ∧ max n' = max n ∧
  (element_ s ≠ Some i → n' = n).

(** ** Classes of binary64 values *)

Definition sf_zero_or_nan (x : spec_float) : bool :=
  match x with S754_zero _ | S754_nan => true | _ => false end.

Definition sf_is_zero (x : spec_float) : bool :=
  match x with S754_zero _ => true | _ => false end.

(** Finite and not a zero, or infinite. *)
Definition sf_nonzero (x : spec_float) : bool :=
  match x with S754_finite _ _ _ | S754_infinity _ => true | _ => false end.

(** Finite, a zero included. *)
Definition sf_finite (x : spec_float) : bool :=
  match x with S754_finite _ _ _ | S754_zero _ => true | _ => false end.

(** ** The outcome of the constructor *)

(** The class of the wrapper [init] puts around the control. *)
Definition container_class (ie : bool) : string :=
  if ie then IE_CONTAINER else SLIDER_CONTAINER.

(** A decoration node: a [div] with one class, a parent, children and a
    style, and nothing else. *)
Definition deco (cls : string) (parent : NodeId) (kids : list NodeId)
    (st : Style) : Node :=
  mkNode "div" [cls] (Some parent) kids st [] nan nan nan false.

(** What [init] makes of a state [w] whose control [el], with node [c], is
    a child of [p], with node [pn]: the state [w'].  The new nodes take the
    references from [length (nodes w)] on. *)
Definition constructed (w : World) (el : NodeId) (c : Node) (p : NodeId)
    (pn : Node) (w' : World) : Prop :=
  let k := length (nodes w) in
  let ie := isIE_ (self w) in
  let f := fraction_of c in
  activeElement w' = activeElement w ∧
  self w' = (if ie then self w
             else mkSlider (Some el) false (Some (k + 2)) (Some (k + 3))) ∧
  length (nodes w') = (if ie then k + 1 else k + 4) ∧
  nodes w' !! el =
    Some (mkNode (tagName c) (token_add IS_UPGRADED (marked c)) (Some k)
                 (children c) (style c) (listeners c ++ registered)%list
                 (value c) (min c) (max c) (disabled c)) ∧
  nodes w' !! p =
    Some (set_children (filter (λ x, x ≠ el) (insert_before k el (children pn))) pn) ∧
  nodes w' !! k =
    Some (deco (container_class ie) p (if ie then [el] else [el; k + 1])
               (mkStyle None None)) ∧
  (ie = false →
   nodes w' !! (k + 1) =
     Some (deco BACKGROUND_FLEX k [k + 2; k + 3] (mkStyle None None)) ∧
   nodes w' !! (k + 2) =
     Some (deco BACKGROUND_LOWER (k + 1) [] (mkStyle (Some f) (Some f))) ∧
   nodes w' !! (k + 3) =
     Some (deco BACKGROUND_UPPER (k + 1) []
                (mkStyle (Some (1 - f)%float) (Some (1 - f)%float)))) ∧
  (∀ i, i < k → i ≠ el → i ≠ p → nodes w' !! i = nodes w !! i).

(** The control [el], with node [c], is a child of [p], with node [pn]. *)
Definition attached (w : World) (el : NodeId) (c : Node) (p : NodeId)
    (pn : Node) : Prop :=
  nodes w !! el = Some c ∧ parentElement c = Some p ∧
  nodes w !! p = Some pn ∧ el ∈ children pn ∧ p ≠ el.

(** The two nodes of [page]. *)
Definition page_body : Node :=
  mkNode "body" [] None [1] (mkStyle None None) [] nan nan nan false.
Definition page_input (v mn mx : float) : Node :=
  mkNode "input" ["mdl-slider"; "mdl-js-slider"] (Some 0) []
         (mkStyle None None) [] v mn mx false.

(** Example states for the constructor: the page of a control with value 3
    between 1 and 5, and a document whose only node is a control in no
    tree, with a component that holds it. *)
Definition plain_page : World := page 3 1 5.
Definition plain_input : Node := page_input 3 1 5.
Definition lone_input : Node :=
  mkNode "input" [] None [] (mkStyle None None) [] 3 1 5 false.
Definition lone_page : World :=
  mkWorld [lone_input] None (mkSlider (Some 0) false None None).

(** Example states: the upgraded page with the value at its highest, and
    with value 2 between 0 and 10. *)
Definition high_slider : World := upgraded_page false 5 1 5.
Definition high_control : Node := upgraded_input false 5 1 5.

(** A state on which the recomputation routine has nothing to write: the
    marker is on the control exactly when the quotient is zero and, outside
    the alternate mode, the fill regions carry the two shares. *)
Definition settled (w : World) (el : NodeId) (c : Node) : Prop :=
  control w el c ∧
  (IS_LOWEST_VALUE ∈ classList c ↔ (fraction_of c =? 0)%float = true) ∧
  (isIE_ (self w) = false →
   ∃ lo up nl nu,
     backgroundLower_ (self w) = Some lo ∧ backgroundUpper_ (self w) = Some up ∧
     nodes w !! lo = Some nl ∧ nodes w !! up = Some nu ∧
     style nl = mkStyle (Some (fraction_of c)) (Some (fraction_of c)) ∧
     style nu = mkStyle (Some (1 - fraction_of c)%float)
                        (Some (1 - fraction_of c)%float)).

(** ** Binary64 facts *)

(** The specification of binary64 is written with the integer operations
    of the core library; [std_Z] turns them into the Standard Library's,
    to which they reduce, so that its lemmas apply. *)
Ltac std_Z :=
  change IntDef.Z.sub with Z.sub in *;
  change IntDef.Z.add with Z.add in *;
  change IntDef.Z.opp with Z.opp in *;
  change IntDef.Z.mul with Z.mul in *;
  change IntDef.Z.min with Z.min in *;
  change IntDef.Z.max with Z.max in *;
  change IntDef.Z.leb with Z.leb in *;
  change IntDef.Z.eqb with Z.eqb in *;
  change IntDef.Z.compare with Z.compare in *;
  change IntDef.Z.even with Z.even in *;
  change (@PosDef.Pos.iter) with (@Pos.iter) in *;
  change PosDef.Pos.succ with Pos.succ in *;
  change PosDef.Pos.compare_cont with Pos.compare_cont in *.

Lemma SFcompare_finite_Eq s1 m1 e1 s2 m2 e2 :
  SFcompare (S754_finite s1 m1 e1) (S754_finite s2 m2 e2) = Some Eq ->
  s1 = s2 /\ m1 = m2 /\ e1 = e2.
Proof.
  cbn. std_Z. destruct s1, s2; try discriminate;
    destruct (Z.compare_spec e1 e2) as [He|He|He]; try discriminate;
    intros H; injection H as H.
  - destruct (Pos.compare_cont Eq m1 m2) eqn:E; try discriminate.
    apply Pos.compare_eq in E. auto.
  - apply Pos.compare_eq in H. auto.
Qed.

Lemma SFsub_eq x y :
  SFeqb x y = true -> sf_zero_or_nan (SF64sub x y) = true.
Proof.
  unfold SFeqb. destruct (SFcompare x y) as [[]|] eqn:E; try discriminate.
  intros _. destruct x as [sx|sx| |sx mx ex], y as [sy|sy| |sy my ey];
    try discriminate; try reflexivity;
    try (cbn in E; destruct sx; discriminate);
    try (cbn in E; destruct sy; discriminate);
    try (destruct sx, sy; try discriminate; reflexivity).
  apply SFcompare_finite_Eq in E. destruct E as [E1 [E2 E3]]. subst sy my ey.
  unfold SF64sub, SFsub. cbv zeta. unfold shl_align. std_Z.
  rewrite Z.min_id, !Z.sub_diag. reflexivity.
Qed.

Lemma SFeqb_sym x y : SFeqb x y = SFeqb y x.
Proof.
  unfold SFeqb.
  destruct x as [sx|sx| |sx mx ex], y as [sy|sy| |sy my ey]; cbn;
    try reflexivity; try (destruct sx; reflexivity); try (destruct sy; reflexivity);
    try (destruct sx, sy; reflexivity).
  std_Z. destruct sx, sy; try reflexivity;
    rewrite (Z.compare_antisym ey ex);
    destruct (ey ?= ex)%Z; cbn; try reflexivity;
    rewrite !Pos.compare_cont_spec, (Pos.compare_antisym my mx);
    destruct (my ?= mx)%positive; reflexivity.
Qed.

Lemma SFdiv_by_zero_or_nan x y :
  sf_zero_or_nan y = true ->
  SFeqb (SF64div x y) (S754_zero false) = false.
Proof.
  destruct y; try discriminate; intros _; destruct x as [sx|sx| |sx mx ex]; 
    try reflexivity; cbn; try (destruct (xorb _ _); reflexivity).
Qed.

Lemma SFdiv_zero_or_nan_both x y :
  sf_zero_or_nan x = true -> sf_zero_or_nan y = true ->
  SF64div x y = S754_nan.
Proof. destruct x, y; try discriminate; reflexivity. Qed.

Lemma SFdiv_zero_by_nonzero x y :
  sf_is_zero x = true -> sf_nonzero y = true ->
  SFeqb (SF64div x y) (S754_zero false) = true.
Proof. destruct x, y; try discriminate; reflexivity. Qed.

(** *** Subtraction of two distinct finite numbers never rounds to zero *)

Lemma digits2_pos_size p : digits2_pos p = Pos.size p.
Proof. induction p; cbn; std_Z; congruence. Qed.

Lemma digits2_pos_bounds p :
  (2 ^ (Z.pos (digits2_pos p) - 1) <= Z.pos p < 2 ^ Z.pos (digits2_pos p))%Z.
Proof.
  rewrite digits2_pos_size.
  pose proof (Pos.size_gt p) as Hgt. pose proof (Pos.size_le p) as Hle.
  apply Pos2Z.pos_lt_pos in Hgt. apply Pos2Z.pos_le_pos in Hle.
  rewrite Pos2Z.inj_pow in Hgt, Hle.
  split; [|exact Hgt].
  replace (Z.pos (Pos.size p)) with (Z.succ (Z.pos (Pos.size p) - 1)) in Hle by lia.
  rewrite Z.pow_succ_r in Hle by lia. lia.
Qed.

Lemma digits2_pos_iter_xO m d :
  Z.pos (digits2_pos (Pos.iter xO m d)) = (Z.pos (digits2_pos m) + Z.pos d)%Z.
Proof.
  induction d using Pos.peano_ind.
  - cbn. std_Z. lia.
  - rewrite Pos.iter_succ. cbn [digits2_pos]. std_Z. lia.
Qed.

Lemma iter_pos_iter {A} (f : A -> A) n x : SpecFloat.iter_pos f n x = Pos.iter f x n.
Proof.
  revert x. induction n as [n IH|n IH|]; intros x; cbn; [| |reflexivity].
  - now rewrite !IH, !Pos.iter_swap.
  - now rewrite !IH.
Qed.

Lemma shr_1_div2 mrs :
  (0 <= shr_m mrs)%Z -> shr_m (shr_1 mrs) = Z.div2 (shr_m mrs).
Proof.
  destruct mrs as [m r s]; cbn [shr_m]. intros Hm.
  destruct m as [|[p|p|]|p]; try reflexivity. lia.
Qed.

Lemma iter_shr_1 n mrs :
  (0 <= shr_m mrs)%Z ->
  shr_m (SpecFloat.iter_pos shr_1 n mrs) = (shr_m mrs / 2 ^ Z.pos n)%Z.
Proof.
  intros Hm. rewrite iter_pos_iter, <- Z.shiftr_div_pow2 by lia.
  change (Z.shiftr (shr_m mrs) (Z.pos n)) with (Pos.iter Z.div2 (shr_m mrs) n).
  enough (H : (0 <= shr_m (Pos.iter shr_1 mrs n))%Z /\
              shr_m (Pos.iter shr_1 mrs n) = Pos.iter Z.div2 (shr_m mrs) n)
    by apply H.
  induction n as [|n [IH1 IH2]] using Pos.peano_ind.
  - cbn. rewrite shr_1_div2 by lia. split; [|reflexivity].
    apply Z.div2_nonneg; lia.
  - rewrite !Pos.iter_succ, shr_1_div2 by lia. rewrite <- IH2.
    split; [|reflexivity]. apply Z.div2_nonneg; lia.
Qed.

Lemma shr_m_of_loc m l : shr_m (shr_record_of_loc m l) = m.
Proof. destruct l as [|[]]; reflexivity. Qed.

Lemma fexp_ge_emin e : (emin <= fexp prec emax e)%Z.
Proof. unfold fexp. std_Z. lia. Qed.

(** Shifting a positive significand into the format keeps it positive as
    long as its exponent is not below the least one. *)
Lemma shr_fexp_pos m e l mrs e' :
  (0 < m)%Z -> (emin <= e)%Z ->
  shr_fexp prec emax m e l = (mrs, e') ->
  (0 < shr_m mrs)%Z /\ (emin <= e')%Z.
Proof.
  intros Hm He. unfold shr_fexp, shr.
  destruct m as [|p|p]; try lia. cbn [Zdigits2].
  pose proof (digits2_pos_bounds p) as [Hlo _].
  set (d := Z.pos (digits2_pos p)) in *.
  assert (Hn : (fexp prec emax (d + e) - e <= d - 1)%Z).
  { unfold fexp, SpecFloat.emin, prec, emax in *. std_Z. lia. }
  std_Z.
  destruct (fexp prec emax (d + e) - e)%Z as [|n|n] eqn:En;
    intros [= <- <-]; rewrite ?shr_m_of_loc; try (split; lia).
  rewrite iter_shr_1 by (rewrite shr_m_of_loc; lia).
  rewrite shr_m_of_loc. split; [|lia].
  apply Z.div_str_pos. split; [apply Z.pow_pos_nonneg; lia|].
  etransitivity; [|exact Hlo]. apply Z.pow_le_mono_r; lia.
Qed.

Lemma round_nearest_even_pos m l :
  (0 < m)%Z -> (0 < round_nearest_even m l)%Z.
Proof.
  intros Hm. destruct l as [|[]]; cbn; std_Z; try lia.
  destruct (Z.even m); lia.
Qed.

Lemma binary_round_aux_nonzero sx m e l :
  (0 < m)%Z -> (emin <= e)%Z ->
  sf_nonzero (binary_round_aux prec emax sx m e l) = true.
Proof.
  intros Hm He. unfold binary_round_aux.
  destruct (shr_fexp prec emax m e l) as [mrs1 e1] eqn:E1.
  apply shr_fexp_pos in E1 as [Hm1 He1]; [|assumption..].
  destruct (shr_fexp prec emax _ e1 loc_Exact) as [mrs2 e2] eqn:E2.
  apply shr_fexp_pos in E2 as [Hm2 He2];
    [|now apply round_nearest_even_pos|assumption].
  destruct (shr_m mrs2); try lia.
  now destruct (IntDef.Z.leb _ _).
Qed.

Lemma binary_round_nonzero sx mx ex :
  (emin <= ex)%Z -> sf_nonzero (binary_round prec emax sx mx ex) = true.
Proof.
  intros He. unfold binary_round, shl_align.
  pose proof (fexp_ge_emin (Z.pos (digits2_pos mx) + ex)) as Hf. std_Z.
  destruct (fexp prec emax (Z.pos (digits2_pos mx) + ex) - ex)%Z;
    apply binary_round_aux_nonzero; lia.
Qed.

Lemma valid_finite_exponent s m e :
  valid_binary (S754_finite s m e) = true ->
  fexp prec emax (Z.pos (digits2_pos m) + e) = e.
Proof.
  cbn. unfold bounded, canonical_mantissa. std_Z.
  intros [H _]%andb_prop. now apply Z.eqb_eq.
Qed.

Lemma fst_shl_align_digits m e e' :
  (e' <= e)%Z ->
  (Z.pos (digits2_pos (fst (shl_align m e e'))) + e' =
   Z.pos (digits2_pos m) + e)%Z.
Proof.
  intros Hle. unfold shl_align. std_Z.
  destruct (e' - e)%Z as [|d|d] eqn:Ed; cbn [fst]; try lia.
  rewrite digits2_pos_iter_xO. lia.
Qed.

Lemma fst_shl_align_same m e : fst (shl_align m e e) = m.
Proof. unfold shl_align. std_Z. now rewrite Z.sub_diag. Qed.

Lemma SFltb_irrefl_finite s m e :
  SFltb (S754_finite s m e) (S754_finite s m e) = false.
Proof.
  unfold SFltb. cbn. std_Z. rewrite Z.compare_refl.
  rewrite Pos.compare_cont_refl. now destruct s.
Qed.

(** The difference [y - x] of a finite [x] and a greater [y] is a non-zero
    number, or an infinity when [y] is one or the difference overflows: it
    is neither a zero nor [NaN]. *)
Lemma SFsub_lt_nonzero x y :
  valid_binary x = true -> valid_binary y = true ->
  sf_finite x = true ->
  SFltb x y = true ->
  sf_nonzero (SF64sub y x) = true.
Proof.
  intros Vx Vy Fx Hlt.
  destruct x as [sx|sx| |sx mx ex], y as [sy|sy| |sy my ey];
    try discriminate; try reflexivity;
    try (destruct sx, sy; discriminate).
  apply valid_finite_exponent in Vx, Vy.
  pose proof (fexp_ge_emin (Z.pos (digits2_pos mx) + ex)) as Hex.
  pose proof (fexp_ge_emin (Z.pos (digits2_pos my) + ey)) as Hey.
  rewrite Vx in Hex. rewrite Vy in Hey.
  unfold SF64sub, SFsub. cbv zeta. std_Z.
  set (ez := Z.min ey ex).
  pose proof (fst_shl_align_digits my ey ez ltac:(lia)) as Dy.
  pose proof (fst_shl_align_digits mx ex ez ltac:(lia)) as Dx.
  destruct (Z.sub (cond_Zopp sy (Z.pos (fst (shl_align my ey ez))))
                  (cond_Zopp sx (Z.pos (fst (shl_align mx ex ez))))) eqn:Ed;
    cbn [binary_normalize]; try (apply binary_round_nonzero; lia).
  exfalso.
  assert (Hs : sx = sy) by (destruct sx, sy; cbn in Ed; try reflexivity; lia).
  subst sy.
  assert (Hm : fst (shl_align my ey ez) = fst (shl_align mx ex ez))
    by (destruct sx; cbn in Ed; lia).
  rewrite Hm in Dy.
  assert (He : ex = ey).
  { rewrite <- Vx, <- Vy. f_equal. lia. }
  subst ey. unfold ez in Hm. rewrite Z.min_id, !fst_shl_align_same in Hm.
  subst my. rewrite SFltb_irrefl_finite in Hlt. discriminate.
Qed.

Lemma SFsub_eq_finite x y :
  sf_finite y = true -> SFeqb x y = true -> sf_is_zero (SF64sub x y) = true.
Proof.
  intros Fy Heq. pose proof (SFsub_eq x y Heq) as H.
  destruct (SF64sub x y) eqn:E; try discriminate; try reflexivity.
  exfalso. unfold SFeqb in Heq.
  destruct x as [sx|sx| |sx mx ex], y as [sy|sy| |sy my ey]; try discriminate;
    try (destruct sx, sy; discriminate);
    try (cbn in Heq; destruct sx; discriminate);
    try (cbn in Heq; destruct sy; discriminate).
  destruct (SFcompare _ _) as [[]|] eqn:Ec; try discriminate.
  apply SFcompare_finite_Eq in Ec. destruct Ec as [E1 [E2 E3]]. subst sy my ey.
  revert E. unfold SF64sub, SFsub. cbv zeta. unfold shl_align. std_Z.
  rewrite Z.min_id, !Z.sub_diag. discriminate.
Qed.

(** *** The same facts on primitive floats *)

Lemma Prim2SF_0 : Prim2SF 0 = S754_zero false.
Proof. reflexivity. Qed.

Lemma Prim2SF_nan : Prim2SF nan = S754_nan.
Proof. reflexivity. Qed.

Lemma SFeqb_refl_finite s m e :
  SFeqb (S754_finite s m e) (S754_finite s m e) = true.
Proof.
  unfold SFeqb. cbn. std_Z. rewrite Z.compare_refl.
  rewrite Pos.compare_cont_refl. now destruct s.
Qed.

Lemma is_finite_SF x : is_finite x = sf_finite (Prim2SF x).
Proof.
  unfold is_finite, is_nan, is_infinity.
  rewrite !FloatAxioms.eqb_spec, FloatAxioms.abs_spec.
  change (Prim2SF infinity) with (S754_infinity false).
  destruct (Prim2SF x) as [s|[]| |s m e]; try reflexivity.
  now rewrite SFeqb_refl_finite.
Qed.

Lemma SFdiv_by_zero_or_nan_not_finite x y :
  sf_zero_or_nan y = true -> sf_finite (SF64div x y) = false.
Proof. destruct y; try discriminate; intros _; now destruct x. Qed.

(** With [min == max] the quotient is never equal to zero. *)
Lemma fraction_degenerate_nonzero v mn mx :
  (mn =? mx)%float = true ->
  ((v - mn) / (mx - mn) =? 0)%float = false.
Proof.
  intros H. rewrite FloatAxioms.eqb_spec, SFeqb_sym in H.
  rewrite FloatAxioms.eqb_spec, FloatAxioms.div_spec, !FloatAxioms.sub_spec, Prim2SF_0.
  apply SFdiv_by_zero_or_nan, SFsub_eq, H.
Qed.

(** With [value == min == max] the quotient is [NaN]. *)
Lemma fraction_degenerate_nan v mn mx :
  (v =? mn)%float = true -> (mn =? mx)%float = true ->
  ((v - mn) / (mx - mn))%float = nan.
Proof.
  intros Hv H. rewrite FloatAxioms.eqb_spec in Hv. rewrite FloatAxioms.eqb_spec, SFeqb_sym in H.
  apply Prim2SF_inj. rewrite FloatAxioms.div_spec, !FloatAxioms.sub_spec, Prim2SF_nan.
  apply SFdiv_zero_or_nan_both; now apply SFsub_eq.
Qed.

(** With [min] finite and [min < max], the quotient at [value == min] is a
    zero. *)
Lemma fraction_at_min v mn mx :
  is_finite mn = true ->
  (mn <? mx)%float = true -> (v =? mn)%float = true ->
  ((v - mn) / (mx - mn) =? 0)%float = true.
Proof.
  intros Fmn Hlt Heq.
  rewrite FloatAxioms.ltb_spec in Hlt. rewrite FloatAxioms.eqb_spec in Heq.
  rewrite FloatAxioms.eqb_spec, FloatAxioms.div_spec, !FloatAxioms.sub_spec, Prim2SF_0.
  rewrite is_finite_SF in Fmn.
  apply SFdiv_zero_by_nonzero.
  - now apply SFsub_eq_finite.
  - apply SFsub_lt_nonzero; auto using Prim2SF_valid.
Qed.

(** With [min == max] the quotient is [NaN] or an infinity. *)
Lemma fraction_degenerate_not_finite v mn mx :
  (mn =? mx)%float = true ->
  is_finite ((v - mn) / (mx - mn))%float = false.
Proof.
  intros H. rewrite FloatAxioms.eqb_spec, SFeqb_sym in H.
  rewrite is_finite_SF, FloatAxioms.div_spec, !FloatAxioms.sub_spec.
  apply SFdiv_by_zero_or_nan_not_finite, SFsub_eq, H.
Qed.

(** ** Running computations *)

Lemma bind_normal {A B} (m : M A) (k : A -> M B) w a w1 :
  m w = (Normal a, w1) -> bind m k w = k a w1.
Proof. unfold bind. now intros ->. Qed.

Lemma getNode_normal w i n :
  nodes w !! i = Some n -> getNode i w = (Normal n, w).
Proof. unfold getNode. now intros ->. Qed.

Lemma updNode_normal w i n f :
  nodes w !! i = Some n -> updNode i f w = (Normal tt, put i (f n) w).
Proof. unfold updNode, put. now intros ->. Qed.

(** ** Lookups after an update *)

Lemma lookup_put_eq w i n :
  is_Some (nodes w !! i) -> nodes (put i n w) !! i = Some n.
Proof. intros H%lookup_lt_is_Some. now apply list_lookup_insert_eq. Qed.

Lemma lookup_put_ne w i j n :
  i ≠ j -> nodes (put i n w) !! j = nodes w !! j.
Proof. intros H. now apply list_lookup_insert_ne. Qed.

Lemma lookup_put_is_Some w i j n :
  is_Some (nodes w !! j) -> is_Some (nodes (put i n w) !! j).
Proof.
  rewrite !lookup_lt_is_Some. cbn. now rewrite length_insert.
Qed.

(** A projection that the update of a node keeps is kept at every
    reference, whether or not it is the updated one. *)
Lemma lookup_put_proj {B} (proj : Node -> B) w i j ni nj g :
  nodes w !! i = Some ni -> nodes w !! j = Some nj -> proj (g ni) = proj ni ->
  ∃ nj', nodes (put i (g ni) w) !! j = Some nj' ∧ proj nj' = proj nj.
Proof.
  intros Hi Hj Hp. destruct (decide (i = j)) as [->|Hne].
  - exists (g ni). rewrite lookup_put_eq by eauto.
    split; [reflexivity|]. congruence.
  - exists nj. now rewrite lookup_put_ne.
Qed.

(** ** Membership in a token list *)

Lemma elem_of_token_add c x l : x ∈ token_add c l ↔ x = c ∨ x ∈ l.
Proof.
  unfold token_add. case_bool_decide as Hc.
  - split; [auto|]. now intros [->|].
  - rewrite elem_of_app, list_elem_of_singleton. tauto.
Qed.

Lemma elem_of_token_remove c x l : x ∈ token_remove c l ↔ x ≠ c ∧ x ∈ l.
Proof. exact (list_elem_of_filter (λ y, y ≠ c) l x). Qed.

Lemma marked_spec c :
  IS_LOWEST_VALUE ∈ marked c ↔ (fraction_of c =? 0)%float = true.
Proof.
  unfold marked. destruct (fraction_of c =? 0)%float.
  - rewrite elem_of_token_add. tauto.
  - rewrite elem_of_token_remove. split; [tauto|discriminate].
Qed.

Lemma marked_other c cl :
  cl ≠ IS_LOWEST_VALUE -> cl ∈ marked c ↔ cl ∈ classList c.
Proof.
  intros Hne. unfold marked. destruct (fraction_of c =? 0)%float.
  - rewrite elem_of_token_add. tauto.
  - rewrite elem_of_token_remove. tauto.
Qed.

(** ** The recomputation routine *)

Lemma toggle_marker_normal w el c :
  nodes w !! el = Some c ->
  (if (fraction_of c =? 0)%float
   then classList_add el IS_LOWEST_VALUE
   else classList_remove el IS_LOWEST_VALUE) w =
  (Normal tt, put el (set_classList (marked c) c) w).
Proof.
  intros Hc. unfold marked, classList_add, classList_remove.
  destruct (fraction_of c =? 0)%float; now rewrite (updNode_normal _ _ _ _ Hc).
Qed.

(** In the alternate mode the routine only toggles the marker. *)
Lemma updateValueStyles_alternate w el c :
  control w el c -> isIE_ (self w) = true ->
  updateValueStyles_ w = (Normal tt, put el (set_classList (marked c) c) w).
Proof.
  intros [He Hc] Hie. unfold updateValueStyles_.
  rewrite (bind_normal _ _ w (self w) w) by reflexivity.
  rewrite He, Hie. cbn [deref negb].
  rewrite (bind_normal _ _ w el w) by reflexivity.
  rewrite (bind_normal _ _ _ _ _ (getNode_normal _ _ _ Hc)). cbv zeta.
  change ((value c - min c) / (max c - min c))%float with (fraction_of c).
  now rewrite (bind_normal _ _ _ _ _ (toggle_marker_normal _ _ _ Hc)).
Qed.

(** Outside the alternate mode it also writes the two shares. *)
Lemma updateValueStyles_split w el c lo up :
  control w el c -> isIE_ (self w) = false -> decorated w lo up ->
  ∃ w',
    updateValueStyles_ w = (Normal tt, w') ∧
    (∃ c', nodes w' !! el = Some c' ∧ classList c' = marked c) ∧
    (∃ nl, nodes w' !! lo = Some nl ∧
           style nl = mkStyle (Some (fraction_of c)) (Some (fraction_of c))) ∧
    (∃ nu, nodes w' !! up = Some nu ∧
           style nu = mkStyle (Some (1 - fraction_of c)%float)
                              (Some (1 - fraction_of c)%float)).
Proof.
  intros [He Hc] Hie (Hlo & Hup & Hnl & Hnu & Hne).
  unfold updateValueStyles_.
  rewrite (bind_normal _ _ w (self w) w) by reflexivity.
  rewrite He, Hie, Hlo, Hup. cbn [deref negb].
  rewrite (bind_normal _ _ w el w) by reflexivity.
  rewrite (bind_normal _ _ _ _ _ (getNode_normal _ _ _ Hc)). cbv zeta.
  change ((value c - min c) / (max c - min c))%float with (fraction_of c).
  rewrite (bind_normal _ _ _ _ _ (toggle_marker_normal _ _ _ Hc)).
  set (f := fraction_of c). set (g := (1 - f)%float).
  set (w1 := put el _ w).
  assert (Hc1 : nodes w1 !! el = Some (set_classList (marked c) c))
    by (apply lookup_put_eq; eauto).
  destruct (lookup_put_is_Some w el lo (set_classList (marked c) c) Hnl)
    as [nl Hl1]. fold w1 in Hl1.
  rewrite (bind_normal _ _ w1 lo w1) by reflexivity.
  rewrite (bind_normal _ _ w1 tt _ (updNode_normal w1 lo nl _ Hl1)).
  set (w2 := put lo _ w1).
  assert (Hl2 : nodes w2 !! lo = Some (set_flex f nl))
    by (apply lookup_put_eq; eauto).
  rewrite (bind_normal _ _ w2 tt _ (updNode_normal w2 lo _ _ Hl2)).
  set (w3 := put lo _ w2).
  assert (Hl3 : nodes w3 !! lo = Some (set_webkitFlex f (set_flex f nl)))
    by (apply lookup_put_eq; eauto).
  assert (Hu3 : is_Some (nodes w3 !! up))
    by (unfold w3, w2, w1; now do 3 apply lookup_put_is_Some).
  destruct Hu3 as [nu Hu3].
  rewrite (bind_normal _ _ w3 up w3) by reflexivity.
  rewrite (bind_normal _ _ w3 tt _ (updNode_normal w3 up nu _ Hu3)).
  set (w4 := put up _ w3).
  assert (Hl4 : nodes w4 !! up = Some (set_flex g nu))
    by (apply lookup_put_eq; eauto).
  rewrite (updNode_normal w4 up _ _ Hl4).
  set (w5 := put up _ w4).
  exists w5. split; [reflexivity|]. split; [|split].
  - destruct (lookup_put_proj classList w1 lo el nl _ (set_flex f) Hl1 Hc1 eq_refl)
      as (c2 & Hc2 & E2). fold w2 in Hc2.
    destruct (lookup_put_proj classList w2 lo el _ c2 (set_webkitFlex f) Hl2 Hc2 eq_refl)
      as (c3 & Hc3 & E3). fold w3 in Hc3.
    destruct (lookup_put_proj classList w3 up el nu c3 (set_flex g) Hu3 Hc3 eq_refl)
      as (c4 & Hc4 & E4). fold w4 in Hc4.
    destruct (lookup_put_proj classList w4 up el _ c4 (set_webkitFlex g) Hl4 Hc4 eq_refl)
      as (c5 & Hc5 & E5). fold w5 in Hc5.
    exists c5. split; [exact Hc5|]. now rewrite E5, E4, E3, E2.
  - exists (set_webkitFlex f (set_flex f nl)). split; [|reflexivity].
    unfold w5, w4. rewrite !lookup_put_ne by (intros E; exact (Hne (eq_sym E))).
    exact Hl3.
  - exists (set_webkitFlex g (set_flex g nu)). split; [|reflexivity].
    apply lookup_put_eq. eauto.
Qed.

(** ** Frames *)

Section Lifting.
Variable P : MaterialSlider -> NodeId -> Node -> Node -> Prop.
Hypothesis P_refl : ∀ s i n, P s i n n.

Lemma lifts_refl w : lifts P w w.
Proof. repeat split. intros i n Hn. eauto. Qed.

(** One more write on a node, on top of writes that [P] allows. *)
Lemma lifts_put w0 w i n n' :
  lifts P w0 w -> nodes w !! i = Some n ->
  (∀ n0, nodes w0 !! i = Some n0 → P (self w0) i n0 n → P (self w0) i n0 n') ->
  lifts P w0 (put i n' w).
Proof.
  intros (Hs & Ha & Hl & Hn) Hi Hstep. repeat split; cbn; try assumption.
  - now rewrite length_insert.
  - intros j n0 Hj. destruct (Hn j n0 Hj) as (n1 & Hn1 & HP).
    destruct (decide (i = j)) as [->|Hne].
    + exists n'. rewrite list_lookup_insert_eq by eauto using lookup_lt_Some.
      split; [reflexivity|]. apply Hstep; [assumption|]. congruence.
    + exists n1. now rewrite list_lookup_insert_ne.
Qed.

(** Sequencing: the frame holds after [m ;; k] if it holds after [m]
    and, when [m] completes normally, after [k]. *)
Lemma lifts_bind {A B} (m : M A) (k : A -> M B) w0 w :
  (∀ r w1, m w = (r, w1) →
     lifts P w0 w1 ∧ ∀ a, r = Normal a → lifts P w0 (snd (k a w1))) ->
  lifts P w0 (snd (bind m k w)).
Proof.
  intros H. unfold bind. destruct (m w) as [[a|e] w1].
  - destruct (H _ _ eq_refl) as [_ Hk]. now apply Hk.
  - now destruct (H _ _ eq_refl) as [Hw _].
Qed.

Lemma lifts_updNode w0 w i f :
  lifts P w0 w ->
  (∀ n n0, nodes w !! i = Some n → nodes w0 !! i = Some n0 →
     P (self w0) i n0 n → P (self w0) i n0 (f n)) ->
  lifts P w0 (snd (updNode i f w)).
Proof.
  intros Hw Hstep. unfold updNode. destruct (nodes w !! i) as [n|] eqn:Hn.
  - apply lifts_put with n; eauto.
  - exact Hw.
Qed.
End Lifting.

Lemma marker_and_flex_only_refl s i n : marker_and_flex_only s i n n.
Proof. unfold marker_and_flex_only. tauto. Qed.

Lemma marker_and_flex_only_toggle s i n0 n :
  element_ s = Some i ->
  marker_and_flex_only s i n0 n ->
  marker_and_flex_only s i n0 (set_classList (marked n) n).
Proof.
  intros He (?&?&?&?&?&?&?&?&Hcl&_&Hst).
  unfold marker_and_flex_only. cbn. split_and!; try assumption.
  - intros cl Hne. rewrite marked_other by assumption. now apply Hcl.
  - intros Hne. now destruct Hne.
Qed.

Lemma marker_and_flex_only_style s i n0 n st :
  isIE_ s = false ->
  backgroundLower_ s = Some i ∨ backgroundUpper_ s = Some i ->
  marker_and_flex_only s i n0 n ->
  marker_and_flex_only s i n0 (set_style st n).
Proof.
  intros Hie Hi (?&?&?&?&?&?&?&?&Hcl&Hother&Hst).
  unfold marker_and_flex_only. cbn. split_and!; try assumption.
  intros [Hie'|[Hlo Hup]]; [congruence|tauto].
Qed.

(** Whatever the state, and whether it completes or throws,
    [updateValueStyles_] writes nothing but the marker class of the control
    and, outside the alternate mode, the style of the fill regions. *)
Lemma updateValueStyles_lifts w :
  lifts marker_and_flex_only w (snd (updateValueStyles_ w)).
Proof.
  pose proof marker_and_flex_only_refl as R.
  unfold updateValueStyles_.
  apply lifts_bind. intros r w1 [= <- <-]. split; [now apply lifts_refl|].
  intros this [= <-].
  destruct (element_ (self w)) as [el|] eqn:He; [|now apply lifts_refl].
  apply lifts_bind. intros r w1 [= <- <-]. split; [now apply lifts_refl|].
  intros ? [= <-].
  apply lifts_bind. intros r w1 Hget. unfold getNode in Hget.
  destruct (nodes w !! el) as [c|] eqn:Hc; injection Hget as <- <-;
    (split; [now apply lifts_refl|]); [|discriminate].
  intros ? [= <-]. cbv zeta.
  change ((value c - min c) / (max c - min c))%float with (fraction_of c).
  apply lifts_bind. intros r w1 Hrun.
  rewrite (toggle_marker_normal _ _ _ Hc) in Hrun. injection Hrun as <- <-.
  assert (H1 : lifts marker_and_flex_only w (put el (set_classList (marked c) c) w)).
  { apply lifts_put with c; [now apply lifts_refl|assumption|].
    intros n0 _. now apply marker_and_flex_only_toggle. }
  split; [exact H1|]. intros _ _.
  destruct (isIE_ (self w)) eqn:Hie; [exact H1|]. cbn [negb].
  destruct (backgroundLower_ (self w)) as [lo|] eqn:Hlo; [|exact H1].
  apply lifts_bind. intros r w1 [= <- <-]. split; [exact H1|]. intros ? [= <-].
  assert (Hflex : ∀ i x w', lifts marker_and_flex_only w w' →
            backgroundLower_ (self w) = Some i ∨ backgroundUpper_ (self w) = Some i →
            lifts marker_and_flex_only w (snd (updNode i (set_flex x) w')) ∧
            lifts marker_and_flex_only w (snd (updNode i (set_webkitFlex x) w'))).
  { intros i x w' Hw' Hi. split.
    - apply lifts_updNode; [assumption..|]. intros n n0 _ _.
      now apply marker_and_flex_only_style.
    - apply lifts_updNode; [assumption..|]. intros n n0 _ _.
      now apply marker_and_flex_only_style. }
  apply lifts_bind. intros r w2 Hrun.
  assert (H2 : lifts marker_and_flex_only w w2).
  { replace w2 with (snd (updNode lo (set_flex (fraction_of c))
                            (put el (set_classList (marked c) c) w)))
      by now rewrite Hrun.
    apply Hflex; auto. }
  split; [exact H2|]. intros _ _.
  apply lifts_bind. intros r' w3 Hrun3.
  assert (H3 : lifts marker_and_flex_only w w3).
  { replace w3 with (snd (updNode lo (set_webkitFlex (fraction_of c)) w2))
      by now rewrite Hrun3.
    apply Hflex; auto. }
  split; [exact H3|]. intros _ _.
  destruct (backgroundUpper_ (self w)) as [up|] eqn:Hup; [|exact H3].
  apply lifts_bind. intros r'' w' [= <- <-]. split; [exact H3|]. intros ? [= <-].
  apply lifts_bind. intros r4 w4 Hrun4.
  assert (H4 : lifts marker_and_flex_only w w4).
  { replace w4 with (snd (updNode up (set_flex (1 - fraction_of c)%float) w3))
      by now rewrite Hrun4.
    apply Hflex; auto. }
  split; [exact H4|]. intros _ _.
  apply Hflex; auto.
Qed.

(** On an upgraded control the routine completes, and leaves the class list
    [marked] on the control. *)
Lemma updateValueStyles_upgraded w el c :
  control w el c -> upgraded w ->
  ∃ w' c', updateValueStyles_ w = (Normal tt, w') ∧
           nodes w' !! el = Some c' ∧ classList c' = marked c.
Proof.
  intros Hctl [_ Hdeco]. destruct (isIE_ (self w)) eqn:Hie.
  - rewrite (updateValueStyles_alternate _ _ _ Hctl Hie).
    do 2 eexists. split; [reflexivity|]. destruct Hctl as [_ Hc].
    rewrite lookup_put_eq by eauto. split; reflexivity.
  - destruct (Hdeco eq_refl) as (lo & up & Hd).
    destruct (updateValueStyles_split _ _ _ _ _ Hctl Hie Hd)
      as (w' & Hrun & (c' & Hc' & Hcl) & _).
    now exists w', c'.
Qed.

(** ** The public methods *)

Lemma setEnabled_normal w el c (b : bool) :
  control w el c ->
  (if b then enable else disable) w =
  (Normal tt, put el (set_disabled (negb b) c) w).
Proof.
  intros [He Hc]. destruct b; unfold enable, disable;
    rewrite (bind_normal _ _ w (self w) w) by reflexivity;
    rewrite He; cbn [deref];
    rewrite (bind_normal _ _ w el w) by reflexivity;
    now rewrite (updNode_normal _ _ _ _ Hc).
Qed.

Lemma disabled_only_refl s i n : disabled_only s i n n.
Proof. unfold disabled_only. tauto. Qed.

Lemma disabled_only_set s i n0 n b :
  element_ s = Some i ->
  disabled_only s i n0 n -> disabled_only s i n0 (set_disabled b n).
Proof.
  intros He (?&?&?&?&?&?&?&?&?&_).
  unfold disabled_only. cbn. split_and!; try assumption.
  intros Hne. now destruct Hne.
Qed.

Lemma setEnabled_lifts w (b : bool) :
  lifts disabled_only w (snd ((if b then enable else disable) w)).
Proof.
  pose proof disabled_only_refl as R.
  assert (H : ∀ b', lifts disabled_only w
                      (snd (bind getThis (λ this,
                              bind (deref (element_ this)) (λ el,
                                updNode el (set_disabled b'))) w))).
  { intros b'. apply lifts_bind. intros r w1 [= <- <-].
    split; [now apply lifts_refl|]. intros this [= <-].
    destruct (element_ (self w)) as [el|] eqn:He; [|now apply lifts_refl].
    apply lifts_bind. intros r w1 [= <- <-].
    split; [now apply lifts_refl|]. intros ? [= <-].
    apply lifts_updNode; [now apply lifts_refl|].
    intros n n0 _ _. now apply disabled_only_set. }
  destruct b; apply H.
Qed.

(** Without an argument, or with a falsy one, [change] is the
    recomputation routine. *)
Lemma change_falsy v :
  match v with Some x => truthy x = false | None => True end ->
  change v = updateValueStyles_.
Proof.
  intros H. unfold change. destruct v as [x|]; [rewrite H|]; reflexivity.
Qed.

(** With a truthy argument, [change] writes it to the control first. *)
Lemma change_truthy w el c x :
  control w el c -> truthy x = true ->
  change (Some x) w = updateValueStyles_ (put el (set_value x c) w).
Proof.
  intros [He Hc] Hx. unfold change. rewrite Hx.
  rewrite (bind_normal _ _ w tt (put el (set_value x c) w)); [reflexivity|].
  rewrite (bind_normal _ _ w (self w) w) by reflexivity.
  rewrite He. cbn [deref].
  rewrite (bind_normal _ _ w el w) by reflexivity.
  now rewrite (updNode_normal _ _ _ _ Hc).
Qed.

(** ** [upgraded] is kept by every method *)

Lemma upgraded_same_references w w' :
  self w' = self w -> length (nodes w') = length (nodes w) ->
  upgraded w -> upgraded w'.
Proof.
  intros Hs Hl [(el & c & He & Hc) Hdeco].
  assert (Hin : ∀ i, is_Some (nodes w !! i) → is_Some (nodes w' !! i))
    by (intros i; rewrite !lookup_lt_is_Some; lia).
  unfold upgraded, control, decorated. rewrite Hs. split.
  - destruct (Hin el) as [c' Hc']; [eauto|]. now exists el, c'.
  - intros Hie. destruct (Hdeco Hie) as (lo & up & ? & ? & ? & ? & ?).
    exists lo, up. split_and!; auto.
Qed.

Lemma upgraded_lifts P w w' : lifts P w w' -> upgraded w -> upgraded w'.
Proof. intros (Hs & _ & Hl & _). now apply upgraded_same_references. Qed.

Lemma updateValueStyles_keeps_upgraded w :
  upgraded w -> upgraded (snd (updateValueStyles_ w)).
Proof. apply upgraded_lifts with marker_and_flex_only, updateValueStyles_lifts. Qed.

Lemma setEnabled_keeps_upgraded w (b : bool) :
  upgraded w -> upgraded (snd ((if b then enable else disable) w)).
Proof. apply upgraded_lifts with disabled_only, setEnabled_lifts. Qed.

Lemma change_keeps_upgraded w v :
  upgraded w -> upgraded (snd (change v w)).
Proof.
  intros Hup. destruct v as [x|]; [destruct (truthy x) eqn:Hx|].
  - destruct Hup as [(el & c & Hctl) Hdeco].
    rewrite (change_truthy _ _ _ _ Hctl Hx).
    apply updateValueStyles_keeps_upgraded.
    apply upgraded_same_references with w; cbn;
      [reflexivity|now rewrite length_insert|].
    split; [now exists el, c|exact Hdeco].
  - rewrite (change_falsy (Some x) Hx). now apply updateValueStyles_keeps_upgraded.
  - rewrite (change_falsy None I). now apply updateValueStyles_keeps_upgraded.
Qed.

(** ** The constructor

    On any document in which the control is a child of some node, the
    constructor completes and leaves an [upgraded] state: the hypothesis of
    the properties of the recomputation routine is what construction
    establishes.  The proof runs [init] step by step; the tactics below
    take one step each, looking up the nodes the step reads in the state
    built so far. *)

Lemma lookup_grow_lt w n i :
  i < length (nodes w) -> nodes (grow n w) !! i = nodes w !! i.
Proof. intros H. now apply lookup_app_l. Qed.

Lemma lookup_grow_eq w n i :
  i = length (nodes w) -> nodes (grow n w) !! i = Some n.
Proof. intros ->. now apply list_lookup_middle. Qed.

Lemma length_put w i n : length (nodes (put i n w)) = length (nodes w).
Proof. apply length_insert. Qed.

Lemma length_grow w n : length (nodes (grow n w)) = S (length (nodes w)).
Proof. cbn. rewrite length_app. cbn. lia. Qed.

Lemma detach_orphan w i n :
  nodes w !! i = Some n -> parentElement n = None ->
  detach i w = (Normal tt, w).
Proof.
  intros Hn Hp. unfold detach.
  rewrite (bind_normal _ _ _ _ _ (getNode_normal _ _ _ Hn)). now rewrite Hp.
Qed.

Lemma elem_of_insert_before new ref l :
  ref ∈ l -> ref ∈ insert_before new ref l.
Proof.
  induction l as [|x l IH]; [easy|]. cbn. case_bool_decide as Hx.
  - intros _. subst. right. left.
  - intros [E|H]%elem_of_cons; [congruence|]. right. auto.
Qed.

Lemma insertBefore_orphan w p new ref pn nn :
  nodes w !! p = Some pn -> ref ∈ children pn ->
  nodes w !! new = Some nn -> parentElement nn = None -> p ≠ new ->
  insertBefore p new ref w =
  (Normal tt,
   put new (set_parentElement (Some p) nn)
       (put p (set_children (insert_before new ref (children pn)) pn) w)).
Proof.
  intros Hp Href Hn Hor Hne. unfold insertBefore.
  rewrite (bind_normal _ _ _ _ _ (getNode_normal _ _ _ Hp)).
  rewrite bool_decide_eq_true_2 by assumption.
  rewrite (bind_normal _ _ _ _ _ (detach_orphan _ _ _ Hn Hor)).
  rewrite (bind_normal _ _ _ _ _ (updNode_normal _ _ _ _ Hp)).
  apply updNode_normal. now rewrite lookup_put_ne.
Qed.

Lemma removeChild_normal w p ch pn cn :
  nodes w !! p = Some pn -> ch ∈ children pn ->
  nodes w !! ch = Some cn -> p ≠ ch ->
  removeChild p ch w =
  (Normal tt,
   put ch (set_parentElement None cn)
       (put p (set_children (filter (λ x, x ≠ ch) (children pn)) pn) w)).
Proof.
  intros Hp Hin Hc Hne. unfold removeChild.
  rewrite (bind_normal _ _ _ _ _ (getNode_normal _ _ _ Hp)).
  rewrite bool_decide_eq_true_2 by assumption.
  rewrite (bind_normal _ _ _ _ _ (updNode_normal _ _ _ _ Hp)).
  apply updNode_normal. now rewrite lookup_put_ne.
Qed.

Lemma appendChild_orphan w p ch pn cn :
  nodes w !! p = Some pn -> nodes w !! ch = Some cn ->
  parentElement cn = None -> p ≠ ch ->
  appendChild p ch w =
  (Normal tt,
   put ch (set_parentElement (Some p) cn)
       (put p (set_children (children pn ++ [ch]) pn) w)).
Proof.
  intros Hp Hc Hor Hne. unfold appendChild.
  rewrite (bind_normal _ _ _ _ _ (getNode_normal _ _ _ Hp)).
  rewrite (bind_normal _ _ _ _ _ (detach_orphan _ _ _ Hc Hor)).
  rewrite (bind_normal _ _ _ _ _ (updNode_normal _ _ _ _ Hp)).
  apply updNode_normal. now rewrite lookup_put_ne.
Qed.

Lemma bind_assoc {A B C} (m : M A) (f : A -> M B) (g : B -> M C) w :
  bind (bind m f) g w = bind m (λ x, bind (f x) g) w.
Proof. unfold bind. now destruct (m w) as [[a|e] w1]. Qed.

(** The last steps of [init], on a control that is in place. *)
Lemma init_tail_normal w el c :
  control w el c -> upgraded w ->
  ∃ w' c',
    (addEventListener el "input" OnInput ;;;
     addEventListener el "change" OnChange ;;;
     addEventListener el "mouseup" OnMouseUp ;;;
     updateValueStyles_ ;;;
     classList_add el IS_UPGRADED) w = (Normal tt, w') ∧
    upgraded w' ∧ control w' el c' ∧ self w' = self w ∧
    value c' = value c ∧ min c' = min c ∧ max c' = max c ∧
    disabled c' = disabled c ∧
    listeners c' = (listeners c ++ registered)%list ∧
    IS_UPGRADED ∈ classList c'.
Proof.
  intros [He Hc] Hup. unfold addEventListener.
  rewrite (bind_normal _ _ w tt _ (updNode_normal w el c _ Hc)).
  set (c1 := set_listeners _ c). set (w1 := put el c1 w).
  assert (H1 : nodes w1 !! el = Some c1) by (apply lookup_put_eq; eauto).
  rewrite (bind_normal _ _ w1 tt _ (updNode_normal w1 el c1 _ H1)).
  set (c2 := set_listeners _ c1). set (w2 := put el c2 w1).
  assert (H2 : nodes w2 !! el = Some c2) by (apply lookup_put_eq; eauto).
  rewrite (bind_normal _ _ w2 tt _ (updNode_normal w2 el c2 _ H2)).
  set (c3 := set_listeners _ c2). set (w3 := put el c3 w2).
  assert (H3 : nodes w3 !! el = Some c3) by (apply lookup_put_eq; eauto).
  assert (Hup3 : upgraded w3).
  { apply upgraded_same_references with w; [reflexivity| |assumption].
    unfold w3, w2, w1. now rewrite !length_put. }
  assert (Hctl3 : control w3 el c3) by (split; assumption).
  destruct (updateValueStyles_upgraded w3 el c3 Hctl3 Hup3)
    as (w4 & c4 & Hrun & Hc4 & Hcl4).
  rewrite (bind_normal _ _ w3 tt w4 Hrun).
  pose proof (updateValueStyles_lifts w3) as Hfr. rewrite Hrun in Hfr.
  destruct Hfr as (Hs4 & _ & Hl4 & Hn4). cbn [snd] in *.
  destruct (Hn4 el c3 H3) as (c4' & Hc4' & (_&_&_&Hls&Hv&Hmn&Hmx&Hdis&_)).
  rewrite Hc4 in Hc4'. injection Hc4' as <-.
  unfold classList_add. rewrite (updNode_normal w4 el c4 _ Hc4).
  set (c5 := set_classList _ c4).
  exists (put el c5 w4), c5. split; [reflexivity|].
  assert (Hup4 : upgraded w4) by (now apply upgraded_same_references with w3).
  split_and!.
  - apply upgraded_same_references with w4;
      [reflexivity|now rewrite length_put|assumption].
  - split; [cbn; now rewrite Hs4|apply lookup_put_eq; eauto].
  - cbn. now rewrite Hs4.
  - cbn. now rewrite Hv.
  - cbn. now rewrite Hmn.
  - cbn. now rewrite Hmx.
  - cbn. now rewrite Hdis.
  - cbn. rewrite Hls. cbn. unfold registered.
    now rewrite <- !app_assoc.
  - cbn. apply elem_of_token_add. now left.
Qed.

Lemma lookup_put_eq_lt w i n :
  i < length (nodes w) -> nodes (put i n w) !! i = Some n.
Proof. intros H. apply lookup_put_eq. now apply lookup_lt_is_Some. Qed.

Lemma nodes_with_self s w : nodes (with_self s w) = nodes w.
Proof. reflexivity. Qed.

Lemma self_put i n w : self (put i n w) = self w.
Proof. reflexivity. Qed.

Lemma self_grow n w : self (grow n w) = self w.
Proof. reflexivity. Qed.

Lemma self_with_self s w : self (with_self s w) = s.
Proof. reflexivity. Qed.

Ltac len :=
  repeat first
    [rewrite length_put | rewrite length_grow | rewrite nodes_with_self];
  try match goal with H : _ = length (nodes _) |- _ => rewrite <- H end.

Ltac lk :=
  repeat first
    [ rewrite nodes_with_self
    | rewrite lookup_put_ne by lia
    | rewrite lookup_put_eq_lt by (len; lia)
    | rewrite lookup_grow_lt by (len; lia)
    | rewrite lookup_grow_eq by (len; lia) ];
  first [reflexivity | eassumption].

Ltac norm := rewrite ?bind_assoc; cbv beta.

Ltac step_create :=
  norm;
  match goal with
  | |- context [bind (createElement ?t) ?k ?W] =>
      rewrite (bind_normal (createElement t) k W (length (nodes W))
                 (grow (blank t) W) eq_refl);
      cbv beta; len
  end.

Ltac step_this :=
  norm;
  match goal with
  | |- context [bind getThis ?k ?W] =>
      rewrite (bind_normal getThis k W (self W) W eq_refl);
      cbv beta; rewrite ?self_put, ?self_grow, ?self_with_self;
      cbn [element_ isIE_ backgroundLower_ backgroundUpper_]
  end.

Ltac step_setThis :=
  norm;
  match goal with
  | |- context [bind (setThis ?s) ?k ?W] =>
      rewrite (bind_normal (setThis s) k W tt (with_self s W) eq_refl);
      cbv beta
  end.

Ltac step_get :=
  norm;
  match goal with
  | |- context [bind (getNode ?i) ?k ?W] =>
      let H := fresh in
      eassert (H : nodes W !! i = Some _) by lk;
      rewrite (bind_normal (getNode i) k W _ W (getNode_normal W i _ H));
      cbv beta; clear H
  end.

Ltac step_upd :=
  norm;
  match goal with
  | |- context [bind (updNode ?i ?f) ?k ?W] =>
      let H := fresh in
      eassert (H : nodes W !! i = Some _) by lk;
      rewrite (bind_normal (updNode i f) k W tt _ (updNode_normal W i _ f H));
      cbv beta; clear H
  end.

Ltac step_ret :=
  norm;
  match goal with
  | |- context [bind (ret ?a) ?k ?W] =>
      rewrite (bind_normal (ret a) k W a W eq_refl); cbv beta
  end.

Ltac step_insert Hin :=
  norm;
  match goal with
  | |- context [bind (insertBefore ?p ?new ?ref) ?k ?W] =>
      let Hp := fresh in let Hn := fresh in
      eassert (Hp : nodes W !! p = Some _) by lk;
      eassert (Hn : nodes W !! new = Some _) by lk;
      rewrite (bind_normal (insertBefore p new ref) k W tt _
                 (insertBefore_orphan W p new ref _ _ Hp Hin Hn eq_refl ltac:(lia)));
      cbv beta; clear Hp Hn
  end.

Ltac step_remove Hin :=
  norm;
  match goal with
  | |- context [bind (removeChild ?p ?ch) ?k ?W] =>
      let Hp := fresh in let Hc := fresh in
      eassert (Hp : nodes W !! p = Some _) by lk;
      eassert (Hc : nodes W !! ch = Some _) by lk;
      rewrite (bind_normal (removeChild p ch) k W tt _
                 (removeChild_normal W p ch _ _ Hp
                    (elem_of_insert_before _ _ _ Hin) Hc ltac:(lia)));
      cbv beta; clear Hp Hc
  end.

Ltac last_append :=
  match goal with
  | |- context [appendChild ?p ?ch ?W] =>
      let Hp := fresh in let Hc := fresh in
      eassert (Hp : nodes W !! p = Some _) by lk;
      eassert (Hc : nodes W !! ch = Some _) by lk;
      rewrite (appendChild_orphan W p ch _ _ Hp Hc eq_refl ltac:(lia));
      clear Hp Hc
  end.

Ltac step_append :=
  norm;
  match goal with
  | |- context [bind (appendChild ?p ?ch) ?k ?W] =>
      let Hp := fresh in let Hc := fresh in
      eassert (Hp : nodes W !! p = Some _) by lk;
      eassert (Hc : nodes W !! ch = Some _) by lk;
      rewrite (bind_normal (appendChild p ch) k W tt _
                 (appendChild_orphan W p ch _ _ Hp Hc eq_refl ltac:(lia)));
      cbv beta; clear Hp Hc
  end.

(** The constructor on a control [el] that is a child of [p]: it
    completes, the state is [upgraded], the control keeps its numbers and
    its [disabled] attribute, carries the three callbacks after those it
    had, and is marked as upgraded. *)
Lemma new_MaterialSlider_normal w el c p pn ie :
  nodes w !! el = Some c -> parentElement c = Some p ->
  nodes w !! p = Some pn -> el ∈ children pn -> p ≠ el ->
  ∃ w' c',
    new_MaterialSlider (Some el) ie w = (Normal tt, w') ∧
    upgraded w' ∧ control w' el c' ∧ isIE_ (self w') = ie ∧
    value c' = value c ∧ min c' = min c ∧ max c' = max c ∧
    disabled c' = disabled c ∧
    listeners c' = (listeners c ++ registered)%list ∧
    IS_UPGRADED ∈ classList c'.
Proof.
  intros Hc Hpar Hp Hin Hne.
  pose proof (lookup_lt_Some _ _ _ Hc) as Hel.
  pose proof (lookup_lt_Some _ _ _ Hp) as Hpl.
  remember (length (nodes w)) as k eqn:Hk.
  unfold new_MaterialSlider. step_setThis.
  unfold init. step_this.
  assert (Hwrap : ∃ wd cd,
    (if ie then
       containerIE <- createElement "div" ;;
       classList_add containerIE IE_CONTAINER ;;;
       c <- getNode el ;;
       p <- deref (parentElement c) ;;
       insertBefore p containerIE el ;;;
       c <- getNode el ;;
       p <- deref (parentElement c) ;;
       removeChild p el ;;;
       appendChild containerIE el
     else
       container <- createElement "div" ;;
       classList_add container SLIDER_CONTAINER ;;;
       c <- getNode el ;;
       p <- deref (parentElement c) ;;
       insertBefore p container el ;;;
       c <- getNode el ;;
       p <- deref (parentElement c) ;;
       removeChild p el ;;;
       appendChild container el ;;;
       backgroundFlex <- createElement "div" ;;
       classList_add backgroundFlex BACKGROUND_FLEX ;;;
       appendChild container backgroundFlex ;;;
       lo <- createElement "div" ;;
       this <- getThis ;;
       setThis (mkSlider (element_ this) (isIE_ this) (Some lo) (backgroundUpper_ this)) ;;;
       classList_add lo BACKGROUND_LOWER ;;;
       appendChild backgroundFlex lo ;;;
       up <- createElement "div" ;;
       this <- getThis ;;
       setThis (mkSlider (element_ this) (isIE_ this) (backgroundLower_ this) (Some up)) ;;;
       classList_add up BACKGROUND_UPPER ;;;
       appendChild backgroundFlex up)
      (with_self (mkSlider (Some el) ie None None) w) = (Normal tt, wd) ∧
    control wd el cd ∧ upgraded wd ∧ isIE_ (self wd) = ie ∧
    value cd = value c ∧ min cd = min c ∧ max cd = max c ∧
    disabled cd = disabled c ∧ listeners cd = listeners c).
  { unfold classList_add. destruct ie.
    - step_create. step_upd. step_get. rewrite Hpar. cbn [deref]. step_ret.
      step_insert Hin. step_get. rewrite Hpar. cbn [deref]. step_ret.
      step_remove Hin. last_append.
      do 2 eexists. split; [reflexivity|].
      assert (Hctl : ∀ W cd, nodes W !! el = Some cd →
                self W = mkSlider (Some el) true None None → control W el cd)
        by (intros W cd H1 H2; split; [now rewrite H2|exact H1]).
      split_and!.
      + apply Hctl; [lk|reflexivity].
      + split; [eexists el, _; apply Hctl; [lk|reflexivity]|discriminate].
      + reflexivity.
      + reflexivity.
      + reflexivity.
      + reflexivity.
      + reflexivity.
      + reflexivity.
    - step_create. step_upd. step_get. rewrite Hpar. cbn [deref]. step_ret.
      step_insert Hin. step_get. rewrite Hpar. cbn [deref]. step_ret.
      step_remove Hin. step_append.
      step_create. step_upd. step_append.
      step_create. step_this. step_setThis. step_upd. step_append.
      step_create. step_this. step_setThis. step_upd. last_append.
      do 2 eexists. split; [reflexivity|].
      assert (Hctl : ∀ W cd s, nodes W !! el = Some cd → self W = s →
                element_ s = Some el → control W el cd)
        by (intros W cd s H1 H2 H3; split; [now rewrite H2|exact H1]).
      split_and!.
      + eapply Hctl; [lk|reflexivity|reflexivity].
      + split; [eexists el, _; eapply Hctl; [lk|reflexivity|reflexivity]|].
        intros _. exists (S (S k)), (S (S (S k))).
        unfold decorated. split_and!; try reflexivity; try lia;
          eexists; lk.
      + reflexivity.
      + reflexivity.
      + reflexivity.
      + reflexivity.
      + reflexivity.
      + reflexivity. }
  destruct Hwrap as (wd & cd & Hrun & Hctl & Hup & Hie & Hv & Hmn & Hmx & Hdis & Hls).
  norm. rewrite (bind_normal _ _ _ tt wd Hrun).
  destruct (init_tail_normal wd el cd Hctl Hup)
    as (w' & c' & Hrun' & Hup' & Hctl' & Hs' & Hv' & Hmn' & Hmx' & Hdis' & Hls' & Hcl').
  exists w', c'. split; [exact Hrun'|].
  split_and!; try assumption; congruence.
Qed.

(** ** The constructor on a page *)

(** Whatever the three numbers and the mode, the constructor completes on
    the page, and leaves a state in which the component holds the
    control. *)
Lemma upgraded_page_normal ie v mn mx :
  new_MaterialSlider (Some 1) ie (page v mn mx) =
  (Normal tt, upgraded_page ie v mn mx).
Proof.
  unfold upgraded_page.
  destruct (new_MaterialSlider (Some 1) ie (page v mn mx)) as [r w'] eqn:E.
  cbn [snd]. f_equal.
  apply (f_equal fst) in E. cbn [fst] in E. rewrite <- E.
  destruct ie; vm_compute;
    destruct ((v - mn) / (mx - mn) =? 0)%float; reflexivity.
Qed.

Lemma upgraded_page_control ie v mn mx :
  control (upgraded_page ie v mn mx) 1
          (upgraded_input ((v - mn) / (mx - mn) =? 0)%float v mn mx).
Proof.
  split; destruct ie; vm_compute;
    destruct ((v - mn) / (mx - mn) =? 0)%float; vm_compute; reflexivity.
Qed.

Lemma upgraded_page_upgraded ie v mn mx : upgraded (upgraded_page ie v mn mx).
Proof.
  split; [eexists _, _; apply upgraded_page_control|].
  intros Hie. exists 4, 5.
  assert (ie = false) as ->.
  { revert Hie. destruct ie; vm_compute;
      destruct ((v - mn) / (mx - mn) =? 0)%float; vm_compute; congruence. }
  unfold decorated. split_and!; [| | | |discriminate];
    vm_compute; destruct ((v - mn) / (mx - mn) =? 0)%float; vm_compute;
    first [reflexivity | eexists; reflexivity].
Qed.

(** The constructor on no control: only the component's own fields are
    set. *)
Lemma new_MaterialSlider_without_control w ie :
  new_MaterialSlider None ie w =
  (Normal tt, mkWorld (nodes w) (activeElement w) (mkSlider None ie None None)).
Proof. reflexivity. Qed.

(** [change(7)] on a control with [min = 0] and [max = 10]: the value
    becomes 7 and the shares 0.7 and 1 - 0.7. *)
Example change_7_of_10 :
  ∃ w' c' nl nu,
    change (Some 7%float) (upgraded_page false 2 0 10) = (Normal tt, w') ∧
    nodes w' !! 1 = Some c' ∧ value c' = 7%float ∧
    nodes w' !! 4 = Some nl ∧ flex (style nl) = Some 0.7%float ∧
    nodes w' !! 5 = Some nu ∧ flex (style nu) = Some (1 - 0.7)%float.
Proof. do 4 eexists. split_and!; vm_compute; reflexivity. Qed.

(** ** Events *)

(** On a control that carries the callbacks of [init], an [input] event
    and a [change] event both run the recomputation routine, once. *)
Lemma dispatch_input_change w target n :
  nodes w !! target = Some n -> listeners n = registered ->
  dispatchEvent "input" target w = snd (updateValueStyles_ w) ∧
  dispatchEvent "change" target w = snd (updateValueStyles_ w).
Proof.
  intros Hn Hl. unfold dispatchEvent. rewrite Hn, Hl.
  split; reflexivity.
Qed.

(** After construction on a control that had no callbacks, an [input]
    event and a [change] event fired at the control leave the same
    state. *)
Lemma constructed_input_change w el c p pn ie w' :
  nodes w !! el = Some c -> parentElement c = Some p ->
  nodes w !! p = Some pn -> el ∈ children pn -> p ≠ el ->
  listeners c = [] ->
  new_MaterialSlider (Some el) ie w = (Normal tt, w') ->
  dispatchEvent "input" el w' = dispatchEvent "change" el w'.
Proof.
  intros Hc Hpar Hp Hin Hne Hls Hrun.
  destruct (new_MaterialSlider_normal w el c p pn ie Hc Hpar Hp Hin Hne)
    as (w2 & c' & Hrun2 & _ & [_ Hc'] & _ & _ & _ & _ & _ & Hls' & _).
  rewrite Hrun in Hrun2. injection Hrun2 as <-.
  rewrite Hls in Hls'. cbn in Hls'.
  destruct (dispatch_input_change w' el c' Hc' Hls') as [-> ->]. reflexivity.
Qed.

(** ** More binary64 facts: the quotient at the highest value *)

Ltac std_Z' :=
  std_Z;
  change IntDef.Z.div_eucl with Z.div_eucl in *;
  change IntDef.Z.shiftl with Z.shiftl in *.

(** A finite non-zero number divided by itself is exactly one. *)
Lemma SFdiv_self s m e :
  SF64div (S754_finite s m e) (S754_finite s m e) = Prim2SF 1.
Proof.
  unfold SF64div, SFdiv, SFdiv_core_binary. cbn [Zdigits2]. std_Z'.
  rewrite !Z.sub_diag. cbn [fexp]. 
  change (Z.min (fexp prec emax 0) 0) with (-53)%Z.
  change (0 - -53)%Z with 53%Z. cbv beta iota zeta.
  rewrite Z.shiftl_mul_pow2, Z.mul_comm by lia.
  assert (Hq : Z.div_eucl (2 ^ 53 * Z.pos m) (Z.pos m) = (2 ^ 53, 0)%Z).
  { pose proof (Z.div_mul (2 ^ 53) (Z.pos m) ltac:(lia)) as Hd.
    pose proof (Z.mod_mul (2 ^ 53) (Z.pos m) ltac:(lia)) as Hm.
    unfold Z.div, Z.modulo in Hd, Hm.
    destruct (Z.div_eucl (2 ^ 53 * Z.pos m) (Z.pos m)) as [q r].
    cbn [fst snd] in *. now subst. }
  rewrite Hq. unfold new_location. destruct (Z.even (Z.pos m)), s; reflexivity.
Qed.

Lemma SFsub_eq_left a b y :
  SFeqb a b = true -> SFltb y b = true -> SF64sub a y = SF64sub b y.
Proof.
  unfold SFeqb, SFltb. intros Hab Hyb.
  destruct (SFcompare a b) as [[]|] eqn:Eab; try discriminate.
  destruct a as [sa|sa| |sa ma ea], b as [sb|sb| |sb mb eb];
    try discriminate;
    try (cbn in Eab; destruct sa; discriminate);
    try (cbn in Eab; destruct sb; discriminate).
  - destruct y as [sy|sy| |sy my ey]; try discriminate; reflexivity.
  - destruct sa, sb; try discriminate; reflexivity.
  - apply SFcompare_finite_Eq in Eab. destruct Eab as [-> [-> ->]]. reflexivity.
Qed.

Lemma SFsub_finite_right b y :
  sf_finite (SF64sub b y) = true -> sf_finite y = true.
Proof.
  destruct y as [sy|sy| |sy my ey]; try reflexivity;
    destruct b as [sb|sb| |sb mb eb]; try discriminate;
    destruct sb, sy; discriminate.
Qed.

Lemma Prim2SF_1 : Prim2SF 1 = S754_finite false 4503599627370496 (-52).
Proof. reflexivity. Qed.

(** With [min < max] and a finite width [max - min], the quotient at
    [value == max] is exactly one. *)
Lemma fraction_at_max v mn mx :
  is_finite (mx - mn) = true ->
  (mn <? mx)%float = true -> (v =? mx)%float = true ->
  ((v - mn) / (mx - mn))%float = 1%float.
Proof.
  intros Hfin Hlt Heq.
  rewrite is_finite_SF, FloatAxioms.sub_spec in Hfin.
  rewrite FloatAxioms.ltb_spec in Hlt. rewrite FloatAxioms.eqb_spec in Heq.
  apply Prim2SF_inj.
  rewrite FloatAxioms.div_spec, !FloatAxioms.sub_spec.
  rewrite (SFsub_eq_left _ _ _ Heq Hlt).
  pose proof (SFsub_lt_nonzero _ _ (Prim2SF_valid mn) (Prim2SF_valid mx)
                (SFsub_finite_right _ _ Hfin) Hlt) as Hnz.
  destruct (SF64sub (Prim2SF mx) (Prim2SF mn)) as [s|s| |s m e];
    try discriminate.
  apply SFdiv_self.
Qed.

(** One minus a zero is one. *)
Lemma one_minus_zero f : (f =? 0)%float = true -> (1 - f)%float = 1%float.
Proof.
  rewrite FloatAxioms.eqb_spec, Prim2SF_0. intros Hz.
  apply Prim2SF_inj. rewrite FloatAxioms.sub_spec, Prim2SF_1.
  destruct (Prim2SF f) as [s|s| |s m e]; try discriminate;
    try (destruct s; discriminate).
  reflexivity.
Qed.

(** ** What the constructor builds *)

Ltac lk0 :=
  repeat first
    [ rewrite nodes_with_self
    | rewrite lookup_put_ne by lia
    | rewrite lookup_put_eq_lt by (len; lia)
    | rewrite lookup_grow_lt by (len; lia)
    | rewrite lookup_grow_eq by (len; lia) ].

Ltac step_toggle :=
  norm;
  match goal with
  | |- context [bind (if ?b then classList_add ?i IS_LOWEST_VALUE
                      else classList_remove ?i IS_LOWEST_VALUE) ?k ?W] =>
      let H := fresh in let E := fresh in
      eassert (H : nodes W !! i = Some _) by lk;
      match type of H with
      | _ = Some ?n =>
          assert (E : (if b then classList_add i IS_LOWEST_VALUE
                       else classList_remove i IS_LOWEST_VALUE) W =
                      (Normal tt, put i (set_classList (marked n) n) W))
            by exact (toggle_marker_normal W i n H)
      end;
      rewrite (bind_normal _ k W tt _ E); cbv beta; clear H E
  end.

Ltac last_upd :=
  match goal with
  | |- context [updNode ?i ?f ?W] =>
      let H := fresh in
      eassert (H : nodes W !! i = Some _) by lk;
      rewrite (updNode_normal W i _ f H); clear H
  end.

Lemma init_constructs_with_self w0 el c p pn ie lo up :
  nodes w0 !! el = Some c -> parentElement c = Some p ->
  nodes w0 !! p = Some pn -> el ∈ children pn -> p ≠ el ->
  let w := with_self (mkSlider (Some el) ie lo up) w0 in
  ∃ w', init w = (Normal tt, w') ∧ constructed w el c p pn w'.
Proof.
  intros Hc Hpar Hp Hin Hne w. subst w.
  pose proof (lookup_lt_Some _ _ _ Hc) as Hel.
  pose proof (lookup_lt_Some _ _ _ Hp) as Hpl.
  unfold constructed. rewrite nodes_with_self, self_with_self.
  cbn [isIE_]. unfold activeElement at 2. cbn [with_self].
  remember (length (nodes w0)) as k eqn:Hk.
  replace (k + 1) with (S k) by lia.
  replace (k + 2) with (S (S k)) by lia.
  replace (k + 3) with (S (S (S k))) by lia.
  replace (k + 4) with (S (S (S (S k)))) by lia.
  unfold init. step_this.
  unfold classList_add, addEventListener, updateValueStyles_. destruct ie.
  - step_create. step_upd. step_get. rewrite Hpar. cbn [deref]. step_ret.
    step_insert Hin. step_get. rewrite Hpar. cbn [deref]. step_ret.
    step_remove Hin. step_append.
    step_upd. step_upd. step_upd.
    step_this. cbn [deref]. step_ret. step_get. cbv zeta. step_toggle.
    cbn [negb]. step_ret. last_upd.
    eexists. split; [reflexivity|].
    split_and!; try reflexivity.
    + len. reflexivity.
    + lk0. unfold marked, fraction_of. cbn. now rewrite <- !app_assoc.
    + lk0. reflexivity.
    + lk0. reflexivity.
    + discriminate.
    + intros i Hi Hie Hip. lk0. reflexivity.
  - step_create. step_upd. step_get. rewrite Hpar. cbn [deref]. step_ret.
    step_insert Hin. step_get. rewrite Hpar. cbn [deref]. step_ret.
    step_remove Hin. step_append.
    step_create. step_upd. step_append.
    step_create. step_this. step_setThis. step_upd. step_append.
    step_create. step_this. step_setThis. step_upd. step_append.
    step_upd. step_upd. step_upd.
    step_this. cbn [deref]. step_ret. step_get. cbv zeta. step_toggle.
    cbn [negb deref]. step_ret. step_upd. step_upd. step_ret. step_upd. step_upd.
    last_upd.
    eexists. split; [reflexivity|].
    split_and!; try reflexivity.
    + len. reflexivity.
    + lk0. unfold marked, fraction_of. cbn. now rewrite <- !app_assoc.
    + lk0. reflexivity.
    + lk0. reflexivity.
    + intros _. split_and!; lk0; reflexivity.
    + intros i Hi Hie Hip. lk0. reflexivity.
Qed.

Lemma init_constructs w el c p pn :
  element_ (self w) = Some el -> attached w el c p pn ->
  ∃ w', init w = (Normal tt, w') ∧ constructed w el c p pn w'.
Proof.
  intros He (Hc & Hpar & Hp & Hin & Hne).
  destruct w as [ns act [e ie lo up]]. cbn in He. subst e.
  exact (init_constructs_with_self (mkWorld ns act (mkSlider None false None None))
           el c p pn ie lo up Hc Hpar Hp Hin Hne).
Qed.

Lemma new_MaterialSlider_constructs w el c p pn ie :
  attached w el c p pn ->
  ∃ w', new_MaterialSlider (Some el) ie w = (Normal tt, w') ∧
        constructed (with_self (mkSlider (Some el) ie None None) w) el c p pn w'.
Proof.
  intros (Hc & Hpar & Hp & Hin & Hne).
  exact (init_constructs_with_self w el c p pn ie None None Hc Hpar Hp Hin Hne).
Qed.


(** ** Writes that change nothing *)

Lemma put_same w i n : nodes w !! i = Some n -> put i n w = w.
Proof.
  intros H. destruct w as [ns act s]. unfold put. cbn in *.
  now rewrite list_insert_id.
Qed.

Lemma set_classList_same n : set_classList (classList n) n = n.
Proof. now destruct n. Qed.

Lemma set_disabled_same n : set_disabled (disabled n) n = n.
Proof. now destruct n. Qed.

Lemma set_flex_same n x y :
  style n = mkStyle (Some x) y -> set_flex x n = n.
Proof. destruct n as [? ? ? ? [? ?] ? ? ? ? ?]. cbn. now intros [= -> ->]. Qed.

Lemma set_webkitFlex_same n x y :
  style n = mkStyle y (Some x) -> set_webkitFlex x n = n.
Proof. destruct n as [? ? ? ? [? ?] ? ? ? ? ?]. cbn. now intros [= -> ->]. Qed.

Lemma token_add_same c l : c ∈ l -> token_add c l = l.
Proof. intros H. unfold token_add. now rewrite bool_decide_eq_true_2. Qed.

Lemma token_remove_same c l : c ∉ l -> token_remove c l = l.
Proof.
  unfold token_remove. induction l as [|x l IH]; [reflexivity|].
  intros H. apply not_elem_of_cons in H as [Hx Hl].
  rewrite filter_cons_True by congruence. now rewrite IH.
Qed.

Lemma marked_same c :
  (IS_LOWEST_VALUE ∈ classList c ↔ (fraction_of c =? 0)%float = true) ->
  marked c = classList c.
Proof.
  intros H. unfold marked. destruct (fraction_of c =? 0)%float.
  - apply token_add_same. now apply H.
  - apply token_remove_same. intros Hin. apply H in Hin. discriminate.
Qed.

(** On a settled state the recomputation routine completes and leaves the
    state as it is. *)
Lemma settled_fixpoint w el c :
  settled w el c -> updateValueStyles_ w = (Normal tt, w).
Proof.
  intros ([He Hc] & Hm & Hdeco).
  assert (H1 : put el (set_classList (marked c) c) w = w).
  { rewrite (marked_same c Hm), set_classList_same. now apply put_same. }
  destruct (isIE_ (self w)) eqn:Hie.
  - rewrite (updateValueStyles_alternate w el c (conj He Hc) Hie). now rewrite H1.
  - destruct (Hdeco eq_refl) as (lo & up & nl & nu & Hlo & Hup & Hnl & Hnu & Sl & Su).
    unfold updateValueStyles_.
    rewrite (bind_normal _ _ w (self w) w) by reflexivity.
    rewrite He, Hie, Hlo, Hup. cbn [deref negb].
    rewrite (bind_normal _ _ w el w) by reflexivity.
    rewrite (bind_normal _ _ _ _ _ (getNode_normal _ _ _ Hc)). cbv zeta.
    change ((value c - min c) / (max c - min c))%float with (fraction_of c).
    rewrite (bind_normal _ _ _ _ _ (toggle_marker_normal _ _ _ Hc)), H1.
    rewrite (bind_normal _ _ w lo w) by reflexivity.
    rewrite (bind_normal _ _ w tt _ (updNode_normal w lo nl _ Hnl)).
    rewrite (set_flex_same _ _ _ Sl), (put_same _ _ _ Hnl).
    rewrite (bind_normal _ _ w tt _ (updNode_normal w lo nl _ Hnl)).
    rewrite (set_webkitFlex_same _ _ _ Sl), (put_same _ _ _ Hnl).
    rewrite (bind_normal _ _ w up w) by reflexivity.
    rewrite (bind_normal _ _ w tt _ (updNode_normal w up nu _ Hnu)).
    rewrite (set_flex_same _ _ _ Su), (put_same _ _ _ Hnu).
    rewrite (updNode_normal w up nu _ Hnu).
    now rewrite (set_webkitFlex_same _ _ _ Su), (put_same _ _ _ Hnu).
Qed.

(** After the recomputation routine has run on an upgraded control, the
    state is settled. *)
Lemma updateValueStyles_settles w el c :
  control w el c -> upgraded w ->
  ∃ w' c', updateValueStyles_ w = (Normal tt, w') ∧ settled w' el c' ∧
           fraction_of c' = fraction_of c.
Proof.
  intros Hctl Hup.
  destruct (updateValueStyles_upgraded w el c Hctl Hup) as (w' & c' & Hrun & Hc' & Hcl).
  pose proof (updateValueStyles_lifts w) as Hfr. rewrite Hrun in Hfr.
  destruct Hfr as (Hs & _ & _ & Hn). cbn [snd] in *.
  destruct Hctl as [He Hc].
  destruct (Hn el c Hc) as (c'' & Hc'' & (_&_&_&_&Hv&Hmn&Hmx&_)).
  rewrite Hc' in Hc''. injection Hc'' as <-.
  assert (Hf : fraction_of c' = fraction_of c)
    by (unfold fraction_of; now rewrite Hv, Hmn, Hmx).
  exists w', c'. split; [exact Hrun|]. split; [|exact Hf].
  split_and!.
  - split; [now rewrite Hs|exact Hc'].
  - rewrite Hcl, Hf. apply marked_spec.
  - rewrite Hs. intros Hie. destruct Hup as [_ Hdeco].
    destruct (Hdeco Hie) as (lo & up & Hd).
    destruct (updateValueStyles_split w el c lo up (conj He Hc) Hie Hd)
      as (w2 & Hrun2 & _ & (nl & Hnl & Sl) & (nu & Hnu & Su)).
    rewrite Hrun in Hrun2. injection Hrun2 as <-.
    destruct Hd as (Hlo & Hupp & _).
    exists lo, up, nl, nu. rewrite Hf. now split_and!.
Qed.

(** ** The place of the control among its siblings *)

Lemma filter_ne_same (ref : nat) (l : list nat) : ref ∉ l -> filter (λ x, x ≠ ref) l = l.
Proof.
  induction l as [|x l IH]; [reflexivity|].
  intros H. apply not_elem_of_cons in H as [Hx Hl].
  rewrite filter_cons_True by congruence. now rewrite IH.
Qed.

Lemma fmap_swap_same (new ref : nat) (l : list nat) :
  ref ∉ l -> (λ x, if bool_decide (x = ref) then new else x) <$> l = l.
Proof.
  induction l as [|x l IH]; [reflexivity|].
  intros H. apply not_elem_of_cons in H as [Hx Hl]. cbn.
  rewrite bool_decide_eq_false_2 by congruence. now rewrite IH.
Qed.

(** Inserting [new] before [ref] and then removing [ref] puts [new] in
    the place of [ref]. *)
Lemma replace_child (new ref : nat) (l : list nat) :
  NoDup l -> new ≠ ref ->
  filter (λ x, x ≠ ref) (insert_before new ref l) =
  (λ x, if bool_decide (x = ref) then new else x) <$> l.
Proof.
  intros Hnd Hne. induction Hnd as [|x l Hx Hnd IH]; [reflexivity|].
  cbn. case_bool_decide as Hxr.
  - subst x. rewrite filter_cons_True by assumption.
    rewrite filter_cons_False by (intros H; now apply H).
    now rewrite filter_ne_same, fmap_swap_same.
  - rewrite filter_cons_True by assumption. now rewrite IH.
Qed.

(** ** What a run of the recomputation routine leaves *)

Lemma updateValueStyles_result w el c :
  control w el c -> upgraded w ->
  ∃ w' c',
    updateValueStyles_ w = (Normal tt, w') ∧ nodes w' !! el = Some c' ∧
    value c' = value c ∧ min c' = min c ∧ max c' = max c ∧
    classList c' = marked c ∧
    (isIE_ (self w) = false → ∀ lo up, decorated w lo up →
     ∃ nl nu,
       nodes w' !! lo = Some nl ∧ nodes w' !! up = Some nu ∧
       style nl = mkStyle (Some (fraction_of c)) (Some (fraction_of c)) ∧
       style nu = mkStyle (Some (1 - fraction_of c)%float)
                          (Some (1 - fraction_of c)%float)).
Proof.
  intros Hctl Hup.
  destruct (updateValueStyles_upgraded w el c Hctl Hup) as (w' & c' & Hrun & Hc' & Hcl).
  pose proof (updateValueStyles_lifts w) as Hfr. rewrite Hrun in Hfr.
  destruct Hfr as (_ & _ & _ & Hn). cbn [snd] in *.
  destruct Hctl as [He Hc].
  destruct (Hn el c Hc) as (c'' & Hc'' & (_&_&_&_&Hv&Hmn&Hmx&_)).
  rewrite Hc' in Hc''. injection Hc'' as <-.
  exists w', c'. split_and!; try assumption.
  intros Hie lo up Hd.
  destruct (updateValueStyles_split w el c lo up (conj He Hc) Hie Hd)
    as (w2 & Hrun2 & _ & (nl & Hnl & Sl) & (nu & Hnu & Su)).
  rewrite Hrun in Hrun2. injection Hrun2 as <-. now exists nl, nu.
Qed.

(** ** Events on a control that carries the callbacks of [init] *)


(** ** [disable] and [enable], case by case *)

Lemma setEnabled_cases w (b : bool) :
  (if b then enable else disable) w = (Throw TypeError, w) ∨
  (if b then enable else disable) w = (Throw BadRef, w) ∨
  ∃ el c, control w el c ∧
          (if b then enable else disable) w =
          (Normal tt, put el (set_disabled (negb b) c) w).
Proof.
  destruct (element_ (self w)) as [el|] eqn:He.
  - destruct (nodes w !! el) as [c|] eqn:Hc.
    + right. right. exists el, c. split; [now split|].
      now apply setEnabled_normal.
    + right. left. destruct b; unfold enable, disable;
        rewrite (bind_normal _ _ w (self w) w) by reflexivity;
        rewrite He; cbn [deref];
        rewrite (bind_normal _ _ w el w) by reflexivity;
        unfold updNode; now rewrite Hc.
  - left. destruct b; unfold enable, disable;
      rewrite (bind_normal _ _ w (self w) w) by reflexivity;
      now rewrite He.
Qed.

Lemma put_put w i n n' : put i n' (put i n w) = put i n' w.
Proof. unfold put. cbn. now rewrite list_insert_insert_eq. Qed.

Lemma control_put w el c n : control w el c -> control (put el n w) el n.
Proof. intros [He Hc]. split; [exact He|]. apply lookup_put_eq. eauto. Qed.



(** ** The claims *)

(** C1. Outside the alternate mode, on a control holding [value], [min] and
    [max], the recomputation routine completes and leaves
    [fraction = (value - min) / (max - min)] as the share ([flex] and
    [webkitFlex]) of the lower fill region and [1 - fraction] as the share
    of the upper one.  This holds whatever the three numbers are, so in
    particular for every valid state with [min < max]. *)
Theorem updateValueStyles_shares w el c lo up :
  control w el c -> isIE_ (self w) = false -> decorated w lo up ->
  let fraction := ((value c - min c) / (max c - min c))%float in
  ∃ w' nl nu,
    updateValueStyles_ w = (Normal tt, w') ∧
    nodes w' !! lo = Some nl ∧ nodes w' !! up = Some nu ∧
    flex (style nl) = Some fraction ∧
    webkitFlex (style nl) = Some fraction ∧
    flex (style nu) = Some (1 - fraction)%float ∧
    webkitFlex (style nu) = Some (1 - fraction)%float.
Proof.
  intros Hctl Hie Hd fraction.
  destruct (updateValueStyles_split _ _ _ _ _ Hctl Hie Hd)
    as (w' & Hrun & _ & (nl & Hnl & Sl) & (nu & Hnu & Su)).
  exists w', nl, nu. rewrite Sl, Su. now split_and!.
Qed.

Lemma updateValueStyles_shares_witness :
  control mid_slider 1 mid_control ∧ isIE_ (self mid_slider) = false ∧
  decorated mid_slider 4 5 ∧
  ∃ w' nl nu,
    updateValueStyles_ mid_slider = (Normal tt, w') ∧
    nodes w' !! 4 = Some nl ∧ nodes w' !! 5 = Some nu ∧
    flex (style nl) = Some 0.5%float ∧
    webkitFlex (style nl) = Some 0.5%float ∧
    flex (style nu) = Some 0.5%float ∧
    webkitFlex (style nu) = Some 0.5%float.
Proof.
  pose (w := mid_slider).
  assert (Hie : isIE_ (self w) = false) by (vm_compute; reflexivity).
  assert (Hctl : control w 1 mid_control)
    by (split; vm_compute; reflexivity).
  assert (Hd : decorated w 4 5)
    by (unfold decorated; split_and!; try (vm_compute; reflexivity);
        try (vm_compute; eexists; reflexivity); discriminate).
  split_and!; [exact Hctl|exact Hie|exact Hd|].
  exact (updateValueStyles_shares w 1 _ 4 5 Hctl Hie Hd).
Defined.

(** C2 (the code departs from it). [change(0)] on a control with value 5,
    [min = 0] and [max = 10]: the argument is supplied, but it is falsy, so
    the guard [if (value)] skips the assignment; the control keeps the
    value 5 and the lower share stays 0.5. *)
Theorem change_zero_ignored :
  ∃ w' c' nl,
    change (Some 0%float) (upgraded_page false 5 0 10) = (Normal tt, w') ∧
    nodes w' !! 1 = Some c' ∧ value c' = 5%float ∧
    nodes w' !! 4 = Some nl ∧ flex (style nl) = Some 0.5%float.
Proof. do 3 eexists. split_and!; vm_compute; reflexivity. Qed.

(** C3 (amended). On a control with [min < max] and [min] finite, after
    the recomputation routine has run: if [value == min] the marker class
    [is-lowest-value] is on the control; for [value > min] it is absent
    exactly when the quotient [(value - min) / (max - min)], as binary64
    arithmetic computes it, is not zero. *)
Theorem lowest_value_marker w el c :
  control w el c -> upgraded w ->
  is_finite (min c) = true -> (min c <? max c)%float = true ->
  ∃ w' c',
    updateValueStyles_ w = (Normal tt, w') ∧ nodes w' !! el = Some c' ∧
    ((value c =? min c)%float = true → IS_LOWEST_VALUE ∈ classList c') ∧
    ((min c <? value c)%float = true →
     (IS_LOWEST_VALUE ∉ classList c' ↔
      ((value c - min c) / (max c - min c) =? 0)%float = false)).
Proof.
  intros Hctl Hup Hfin Hlt.
  destruct (updateValueStyles_upgraded _ _ _ Hctl Hup) as (w' & c' & Hrun & Hc' & Hcl).
  exists w', c'. split_and!; [exact Hrun|exact Hc'| |]; rewrite Hcl, marked_spec.
  - intros Heq. now apply fraction_at_min.
  - intros _. unfold fraction_of.
    destruct ((value c - min c) / (max c - min c) =? 0)%float; split; congruence.
Qed.

Lemma lowest_value_marker_witness :
  control low_slider 1 low_control ∧ upgraded low_slider ∧
  is_finite 2 = true ∧ (2 <? 9)%float = true ∧
  ∃ w' c',
    updateValueStyles_ low_slider = (Normal tt, w') ∧ nodes w' !! 1 = Some c' ∧
    ((2 =? 2)%float = true → IS_LOWEST_VALUE ∈ classList c') ∧
    ((2 <? 2)%float = true →
     (IS_LOWEST_VALUE ∉ classList c' ↔ ((2 - 2) / (9 - 2) =? 0)%float = false)).
Proof.
  pose (w := low_slider).
  assert (Hctl : control w 1 low_control)
    by (split; vm_compute; reflexivity).
  assert (Hup : upgraded w).
  { split; [now exists 1, low_control|].
    intros _. exists 4, 5.
    unfold decorated; split_and!; try (vm_compute; reflexivity);
      try (vm_compute; eexists; reflexivity); discriminate. }
  split_and!; [exact Hctl|exact Hup|reflexivity|reflexivity|].
  exact (lowest_value_marker w 1 _ Hctl Hup eq_refl eq_refl).
Defined.

(** C3 as stated fails: with [value = 2^-600], [min = 0] and [max = 2^600]
    the value is above [min], yet the quotient [2^-1200] rounds to zero and
    the routine puts the marker on the control. *)
Lemma lowest_value_marker_underflow :
  control tiny_slider 1 tiny_control ∧ upgraded tiny_slider ∧
  (min tiny_control <? max tiny_control)%float = true ∧
  (min tiny_control <? value tiny_control)%float = true ∧
  ∃ w' c',
    updateValueStyles_ tiny_slider = (Normal tt, w') ∧ nodes w' !! 1 = Some c' ∧
    IS_LOWEST_VALUE ∈ classList c'.
Proof.
  split_and!; [| | | |do 2 eexists; split_and!].
  - split; vm_compute; reflexivity.
  - split; [eexists 1, _; split; vm_compute; reflexivity|].
    intros _. exists 4, 5.
    unfold decorated; split_and!; try (vm_compute; reflexivity);
      try (vm_compute; eexists; reflexivity); discriminate.
  - reflexivity.
  - reflexivity.
  - vm_compute. reflexivity.
  - vm_compute. reflexivity.
  - vm_compute. apply list_elem_of_In. cbn. tauto.
Qed.

(** The finiteness of [min] matters in C3: with [value == min == -Infinity]
    and [max = 0] the quotient is [NaN], and the routine leaves no marker
    on the control although the value is at its lowest. *)
Example lowest_value_marker_infinite_min :
  let w := upgraded_page false neg_infinity neg_infinity 0 in
  (neg_infinity <? 0)%float = true ∧ (neg_infinity =? neg_infinity)%float = true ∧
  ∃ w' c',
    updateValueStyles_ w = (Normal tt, w') ∧ nodes w' !! 1 = Some c' ∧
    IS_LOWEST_VALUE ∉ classList c'.
Proof.
  intros w. split_and!; try reflexivity.
  do 2 eexists. split_and!; try (vm_compute; reflexivity).
  rewrite list_elem_of_In. cbn. intros [H|[H|[H|[]]]]; discriminate.
Qed.

(** C4. [change()] with no argument is the recomputation routine alone: on
    an upgraded control it completes, leaves [value], [min] and [max] as
    they were, sets the marker class according to the quotient computed
    from them and, outside the alternate mode, writes the two shares. *)
Theorem change_without_argument w el c :
  control w el c -> upgraded w ->
  let fraction := ((value c - min c) / (max c - min c))%float in
  change None w = updateValueStyles_ w ∧
  ∃ w' c',
    change None w = (Normal tt, w') ∧ nodes w' !! el = Some c' ∧
    value c' = value c ∧ min c' = min c ∧ max c' = max c ∧
    (IS_LOWEST_VALUE ∈ classList c' ↔ (fraction =? 0)%float = true) ∧
    (isIE_ (self w) = false → ∀ lo up, decorated w lo up →
     ∃ nl nu,
       nodes w' !! lo = Some nl ∧ nodes w' !! up = Some nu ∧
       style nl = mkStyle (Some fraction) (Some fraction) ∧
       style nu = mkStyle (Some (1 - fraction)%float) (Some (1 - fraction)%float)).
Proof.
  intros Hctl Hup fraction.
  rewrite (change_falsy None I). split; [reflexivity|].
  destruct (updateValueStyles_upgraded _ _ _ Hctl Hup) as (w' & c' & Hrun & Hc' & Hcl).
  exists w', c'.
  pose proof (updateValueStyles_lifts w) as (_ & _ & _ & Hfr).
  rewrite Hrun in Hfr. destruct Hctl as [He Hc].
  destruct (Hfr el c Hc) as (c'' & Hc'' & (_&_&_&_&Hv&Hmn&Hmx&_)).
  cbn [snd] in Hc''. rewrite Hc' in Hc''. injection Hc'' as <-.
  split_and!; try assumption.
  - rewrite Hcl. apply marked_spec.
  - intros Hie lo up Hd.
    destruct (updateValueStyles_split _ _ _ _ _ (conj He Hc) Hie Hd)
      as (w2 & Hrun2 & _ & (nl & Hnl & Sl) & (nu & Hnu & Su)).
    rewrite Hrun in Hrun2. injection Hrun2 as <-. now exists nl, nu.
Qed.

Lemma change_without_argument_witness :
  control mid_slider 1 mid_control ∧ upgraded mid_slider ∧
  change None mid_slider = updateValueStyles_ mid_slider ∧
  ∃ w' c',
    change None mid_slider = (Normal tt, w') ∧ nodes w' !! 1 = Some c' ∧
    value c' = 3%float ∧ min c' = 1%float ∧ max c' = 5%float ∧
    (IS_LOWEST_VALUE ∈ classList c' ↔ (0.5 =? 0)%float = true) ∧
    (isIE_ (self mid_slider) = false → ∀ lo up, decorated mid_slider lo up →
     ∃ nl nu,
       nodes w' !! lo = Some nl ∧ nodes w' !! up = Some nu ∧
       style nl = mkStyle (Some 0.5%float) (Some 0.5%float) ∧
       style nu = mkStyle (Some 0.5%float) (Some 0.5%float)).
Proof.
  pose (w := mid_slider).
  assert (Hctl : control w 1 mid_control)
    by (split; vm_compute; reflexivity).
  assert (Hup : upgraded w).
  { split; [now exists 1, mid_control|].
    intros _. exists 4, 5.
    unfold decorated; split_and!; try (vm_compute; reflexivity);
      try (vm_compute; eexists; reflexivity); discriminate. }
  split; [exact Hctl|]. split; [exact Hup|].
  exact (change_without_argument w 1 _ Hctl Hup).
Defined.

(** C5. The callbacks for the value-changing ([input]) and the
    value-committed ([change]) events are the same computation, the
    recomputation routine and nothing else: from every state, and for
    every event target, both give the same completion and the same
    state. *)
Theorem onInput_onChange_same target w :
  onInput_ target w = onChange_ target w ∧
  onInput_ target w = updateValueStyles_ w ∧
  call OnInput target w = call OnChange target w.
Proof. split_and!; reflexivity. Qed.

(** C6. With no control ([element_] is [null] or [undefined]), [init]
    completes normally and leaves the state as it was: no node is
    created, no callback registered, no class added. *)
Theorem init_without_control w :
  element_ (self w) = None -> init w = (Normal tt, w).
Proof.
  intros He. unfold init.
  rewrite (bind_normal _ _ w (self w) w) by reflexivity.
  now rewrite He.
Qed.

Lemma init_without_control_witness :
  element_ (self (page 7 0 10)) = None ∧
  init (page 7 0 10) = (Normal tt, page 7 0 10).
Proof.
  split; [reflexivity|]. exact (init_without_control (page 7 0 10) eq_refl).
Defined.

(** C7 (amended). When the component holds a control, [disable] completes
    normally, returns nothing and leaves the control's [disabled] true;
    [enable] does the same and leaves it false. *)
Theorem setEnabled_disabled w el c :
  control w el c ->
  (∃ w' c', disable w = (Normal tt, w') ∧
            nodes w' !! el = Some c' ∧ disabled c' = true) ∧
  (∃ w' c', enable w = (Normal tt, w') ∧
            nodes w' !! el = Some c' ∧ disabled c' = false).
Proof.
  intros Hctl.
  pose proof (setEnabled_normal w el c false Hctl) as Hd.
  pose proof (setEnabled_normal w el c true Hctl) as He.
  destruct Hctl as [_ Hc]. cbn [negb] in Hd, He. split.
  - do 2 eexists. split; [exact Hd|]. rewrite lookup_put_eq by eauto. now split.
  - do 2 eexists. split; [exact He|]. rewrite lookup_put_eq by eauto. now split.
Qed.

Lemma setEnabled_disabled_witness :
  control mid_slider 1 mid_control ∧
  (∃ w' c', disable mid_slider = (Normal tt, w') ∧
            nodes w' !! 1 = Some c' ∧ disabled c' = true) ∧
  (∃ w' c', enable mid_slider = (Normal tt, w') ∧
            nodes w' !! 1 = Some c' ∧ disabled c' = false).
Proof.
  pose (w := mid_slider).
  assert (Hctl : control w 1 mid_control)
    by (split; vm_compute; reflexivity).
  split; [exact Hctl|]. exact (setEnabled_disabled w 1 _ Hctl).
Defined.

(** C7 as stated fails: on a component constructed on no control, which
    [init] accepts, [disable] and [enable] throw a [TypeError]. *)
Lemma setEnabled_without_control :
  new_MaterialSlider None false (page 7 0 10) = (Normal tt, page_without_control) ∧
  disable page_without_control = (Throw TypeError, page_without_control) ∧
  enable page_without_control = (Throw TypeError, page_without_control).
Proof. split_and!; vm_compute; reflexivity. Qed.

(** C8. Whatever the state, and whether it completes or throws, the
    recomputation routine keeps the component, the focus and the node
    references, and on every node it keeps [value], [min], [max] and
    [disabled] (and the tree and the callbacks); the classes other than
    [is-lowest-value] stay, the class list changes on the control only, and
    the style changes on the two fill regions only, and not in the
    alternate mode. *)
Theorem updateValueStyles_writes w :
  let w' := snd (updateValueStyles_ w) in
  self w' = self w ∧ activeElement w' = activeElement w ∧
  length (nodes w') = length (nodes w) ∧
  ∀ i n, nodes w !! i = Some n →
    ∃ n', nodes w' !! i = Some n' ∧
      tagName n' = tagName n ∧ parentElement n' = parentElement n ∧
      children n' = children n ∧ listeners n' = listeners n ∧
      value n' = value n ∧ min n' = min n ∧ max n' = max n ∧
      disabled n' = disabled n ∧
      (∀ cl, cl ≠ IS_LOWEST_VALUE → cl ∈ classList n' ↔ cl ∈ classList n) ∧
      (element_ (self w) ≠ Some i → classList n' = classList n) ∧
      (isIE_ (self w) = true ∨
       (backgroundLower_ (self w) ≠ Some i ∧ backgroundUpper_ (self w) ≠ Some i) →
       style n' = style n).
Proof. exact (updateValueStyles_lifts w). Qed.

(** C9. Whatever the state, and whether they complete or throw, [disable]
    and [enable] keep the component, the focus and the node references;
    every node other than the control is untouched, and the control keeps
    its [value], [min], [max], class list and style (and its place in the
    tree and its callbacks): only its [disabled] attribute is written. *)
Theorem setEnabled_writes w (b : bool) :
  let w' := snd ((if b then enable else disable) w) in
  self w' = self w ∧ activeElement w' = activeElement w ∧
  length (nodes w') = length (nodes w) ∧
  ∀ i n, nodes w !! i = Some n →
    ∃ n', nodes w' !! i = Some n' ∧
      tagName n' = tagName n ∧ classList n' = classList n ∧
      parentElement n' = parentElement n ∧ children n' = children n ∧
      style n' = style n ∧ listeners n' = listeners n ∧
      value n' = value n ∧ min n' = min n ∧ max n' = max n ∧
      (element_ (self w) ≠ Some i → n' = n).
Proof. exact (setEnabled_lifts w b). Qed.

(** C10 (amended). With [min == max] the recomputation routine still
    completes: the quotient is not a finite number - it is [NaN] when
    [value == min], and [NaN] or an infinity otherwise - so it is not equal
    to zero and the marker class is removed, never added, also when
    [value == min]. *)
Theorem degenerate_range_marker w el c :
  control w el c -> upgraded w -> (min c =? max c)%float = true ->
  let fraction := ((value c - min c) / (max c - min c))%float in
  ∃ w' c',
    updateValueStyles_ w = (Normal tt, w') ∧ nodes w' !! el = Some c' ∧
    is_finite fraction = false ∧
    ((value c =? min c)%float = true → fraction = nan) ∧
    (fraction =? 0)%float = false ∧
    IS_LOWEST_VALUE ∉ classList c'.
Proof.
  intros Hctl Hup Heq fraction.
  destruct (updateValueStyles_upgraded _ _ _ Hctl Hup) as (w' & c' & Hrun & Hc' & Hcl).
  pose proof (fraction_degenerate_nonzero (value c) _ _ Heq) as Hnz.
  exists w', c'. split_and!; [exact Hrun|exact Hc'| | |exact Hnz|].
  - now apply fraction_degenerate_not_finite.
  - intros Hv. now apply fraction_degenerate_nan.
  - rewrite Hcl, marked_spec. unfold fraction_of. now rewrite Hnz.
Qed.

Lemma degenerate_range_marker_witness :
  control flat_slider 1 flat_control ∧ upgraded flat_slider ∧
  (4 =? 4)%float = true ∧
  ∃ w' c',
    updateValueStyles_ flat_slider = (Normal tt, w') ∧ nodes w' !! 1 = Some c' ∧
    is_finite ((4 - 4) / (4 - 4))%float = false ∧
    ((4 =? 4)%float = true → ((4 - 4) / (4 - 4))%float = nan) ∧
    ((4 - 4) / (4 - 4) =? 0)%float = false ∧
    IS_LOWEST_VALUE ∉ classList c'.
Proof.
  pose (w := flat_slider).
  assert (Hctl : control w 1 flat_control)
    by (split; vm_compute; reflexivity).
  assert (Hup : upgraded w).
  { split; [now exists 1, flat_control|].
    intros _. exists 4, 5.
    unfold decorated; split_and!; try (vm_compute; reflexivity);
      try (vm_compute; eexists; reflexivity); discriminate. }
  split_and!; [exact Hctl|exact Hup|reflexivity|].
  exact (degenerate_range_marker w 1 _ Hctl Hup eq_refl).
Defined.

(** C10 as stated fails: with [min == max == 0] and [value = 1] the
    routine completes and removes the marker, but the quotient it computes
    is [1 / 0], which is [+Infinity] and not [NaN]. *)
Lemma degenerate_range_infinity :
  control flat_slider_above 1 flat_control_above ∧
  value flat_control_above = 1%float ∧
  (min flat_control_above =? max flat_control_above)%float = true ∧
  ((value flat_control_above - min flat_control_above) /
   (max flat_control_above - min flat_control_above))%float = infinity ∧
  is_nan infinity = false ∧
  ∃ w' c',
    updateValueStyles_ flat_slider_above = (Normal tt, w') ∧
    nodes w' !! 1 = Some c' ∧ IS_LOWEST_VALUE ∉ classList c'.
Proof.
  split_and!; try reflexivity.
  - split; vm_compute; reflexivity.
  - do 2 eexists. split_and!; try (vm_compute; reflexivity).
    rewrite list_elem_of_In. cbn.
    intros [H|[H|[H|[]]]]; discriminate.
Qed.

(** ** Further properties of the script *)



(** X2. Outside the alternate mode, [init] wraps the control: a container
    with class [mdl-slider__container] takes the control's place among
    the children of its parent and holds the control followed by a
    [mdl-slider__background-flex] node, which holds the lower and the
    upper fill region; the two regions carry the shares computed from the
    control, and the component's fields refer to them.  Four nodes are
    created. *)
Theorem init_wraps_control w el c p pn :
  attached w el c p pn ->
  NoDup (children pn) ->
  let k := length (nodes w) in
  let f := ((value c - min c) / (max c - min c))%float in
  ∃ w' c' pn',
    new_MaterialSlider (Some el) false w = (Normal tt, w') ∧
    length (nodes w') = k + 4 ∧
    nodes w' !! el = Some c' ∧ parentElement c' = Some k ∧
    nodes w' !! p = Some pn' ∧
    children pn' = ((λ y, if bool_decide (y = el) then k else y) <$> children pn) ∧
    nodes w' !! k =
      Some (deco SLIDER_CONTAINER p [el; k + 1] (mkStyle None None)) ∧
    nodes w' !! (k + 1) =
      Some (deco BACKGROUND_FLEX k [k + 2; k + 3] (mkStyle None None)) ∧
    nodes w' !! (k + 2) =
      Some (deco BACKGROUND_LOWER (k + 1) [] (mkStyle (Some f) (Some f))) ∧
    nodes w' !! (k + 3) =
      Some (deco BACKGROUND_UPPER (k + 1) []
                 (mkStyle (Some (1 - f)%float) (Some (1 - f)%float))) ∧
    backgroundLower_ (self w') = Some (k + 2) ∧
    backgroundUpper_ (self w') = Some (k + 3).
Proof.
  intros Hat Hnd k f.
  destruct (new_MaterialSlider_constructs w el c p pn false Hat) as (w' & Hrun & Hcon).
  destruct Hcon as (_ & Hs & Hl & Hce & Hpe & Hk & Hdeco & _).
  cbn [with_self self isIE_ nodes] in *.
  destruct (Hdeco eq_refl) as (Hbf & Hlo & Hup).
  assert (Hek : k ≠ el).
  { destruct Hat as (Hc & _). apply lookup_lt_Some in Hc. unfold k. lia. }
  eexists w', _, _. split_and!; try eassumption; try reflexivity.
  - cbn. now apply replace_child.
  - now rewrite Hs.
  - now rewrite Hs.
Qed.

Lemma init_wraps_control_witness :
  attached plain_page 1 plain_input 0 page_body ∧
  NoDup (children page_body) ∧
  (∃ w' c' pn',
    new_MaterialSlider (Some 1) false plain_page = (Normal tt, w') ∧
    length (nodes w') = 2 + 4 ∧
    nodes w' !! 1 = Some c' ∧ parentElement c' = Some 2 ∧
    nodes w' !! 0 = Some pn' ∧
    children pn' = ((λ y, if bool_decide (y = 1) then 2 else y) <$> children page_body) ∧
    nodes w' !! 2 =
      Some (deco SLIDER_CONTAINER 0 [1; 2 + 1] (mkStyle None None)) ∧
    nodes w' !! (2 + 1) =
      Some (deco BACKGROUND_FLEX 2 [2 + 2; 2 + 3] (mkStyle None None)) ∧
    nodes w' !! (2 + 2) =
      Some (deco BACKGROUND_LOWER (2 + 1) [] (mkStyle (Some 0.5%float) (Some 0.5%float))) ∧
    nodes w' !! (2 + 3) =
      Some (deco BACKGROUND_UPPER (2 + 1) []
                 (mkStyle (Some (1 - 0.5%float)%float) (Some (1 - 0.5%float)%float))) ∧
    backgroundLower_ (self w') = Some (2 + 2) ∧
    backgroundUpper_ (self w') = Some (2 + 3)).
Proof.
  assert (H1 : attached plain_page 1 plain_input 0 page_body)
    by (unfold attached; split_and!; [reflexivity|reflexivity|reflexivity|apply list_elem_of_In; cbn; tauto|discriminate]).
  assert (H2 : NoDup (children page_body))
    by (apply NoDup_singleton).
  split; [exact H1|].
  split; [exact H2|].
  exact (init_wraps_control (plain_page) (1) (plain_input) (0) (page_body) H1 H2).
Defined.

(** X3. In the alternate mode, [init] wraps the control in one container
    with class [mdl-slider__ie-container], which takes the control's place
    among the children of its parent and holds the control alone; one node
    is created, and the component refers to no fill region. *)
Theorem init_wraps_control_alternate w el c p pn :
  attached w el c p pn ->
  NoDup (children pn) ->
  let k := length (nodes w) in
  ∃ w' c' pn',
    new_MaterialSlider (Some el) true w = (Normal tt, w') ∧
    length (nodes w') = k + 1 ∧
    nodes w' !! el = Some c' ∧ parentElement c' = Some k ∧
    nodes w' !! p = Some pn' ∧
    children pn' = ((λ y, if bool_decide (y = el) then k else y) <$> children pn) ∧
    nodes w' !! k = Some (deco IE_CONTAINER p [el] (mkStyle None None)) ∧
    backgroundLower_ (self w') = None ∧
    backgroundUpper_ (self w') = None.
Proof.
  intros Hat Hnd k.
  destruct (new_MaterialSlider_constructs w el c p pn true Hat) as (w' & Hrun & Hcon).
  destruct Hcon as (_ & Hs & Hl & Hce & Hpe & Hk & _).
  cbn [with_self self isIE_ nodes] in *.
  assert (Hek : k ≠ el).
  { destruct Hat as (Hc & _). apply lookup_lt_Some in Hc. unfold k. lia. }
  eexists w', _, _. split_and!; try eassumption; try reflexivity.
  - cbn. now apply replace_child.
  - now rewrite Hs.
  - now rewrite Hs.
Qed.

Lemma init_wraps_control_alternate_witness :
  attached plain_page 1 plain_input 0 page_body ∧
  NoDup (children page_body) ∧
  (∃ w' c' pn',
    new_MaterialSlider (Some 1) true plain_page = (Normal tt, w') ∧
    length (nodes w') = 2 + 1 ∧
    nodes w' !! 1 = Some c' ∧ parentElement c' = Some 2 ∧
    nodes w' !! 0 = Some pn' ∧
    children pn' = ((λ y, if bool_decide (y = 1) then 2 else y) <$> children page_body) ∧
    nodes w' !! 2 = Some (deco IE_CONTAINER 0 [1] (mkStyle None None)) ∧
    backgroundLower_ (self w') = None ∧
    backgroundUpper_ (self w') = None).
Proof.
  assert (H1 : attached plain_page 1 plain_input 0 page_body)
    by (unfold attached; split_and!; [reflexivity|reflexivity|reflexivity|apply list_elem_of_In; cbn; tauto|discriminate]).
  assert (H2 : NoDup (children page_body))
    by (apply NoDup_singleton).
  split; [exact H1|].
  split; [exact H2|].
  exact (init_wraps_control_alternate (plain_page) (1) (plain_input) (0) (page_body) H1 H2).
Defined.

(** X4. After the constructor, the control carries the class [is-upgraded];
    it carries [is-lowest-value] exactly when the quotient computed from
    its [value], [min] and [max] is zero; and every other class is on it
    exactly when it was before. *)
Theorem init_classes w el c p pn ie :
  attached w el c p pn ->
  ∃ w' c',
    new_MaterialSlider (Some el) ie w = (Normal tt, w') ∧
    nodes w' !! el = Some c' ∧
    IS_UPGRADED ∈ classList c' ∧
    (IS_LOWEST_VALUE ∈ classList c' ↔
     ((value c - min c) / (max c - min c) =? 0)%float = true) ∧
    (∀ cl, cl ≠ IS_UPGRADED → cl ≠ IS_LOWEST_VALUE →
           cl ∈ classList c' ↔ cl ∈ classList c).
Proof.
  intros Hat.
  destruct (new_MaterialSlider_constructs w el c p pn ie Hat) as (w' & Hrun & Hcon).
  destruct Hcon as (_ & _ & _ & Hce & _).
  eexists w', _. split; [exact Hrun|]. split; [exact Hce|]. cbn [classList].
  change ((value c - min c) / (max c - min c))%float with (fraction_of c).
  split_and!.
  - apply elem_of_token_add. now left.
  - rewrite elem_of_token_add, marked_spec.
    split; [intros [H|H]; [discriminate|exact H]|auto].
  - intros cl H1 H2. rewrite elem_of_token_add, marked_other by assumption.
    split; [intros [H|H]; [contradiction|exact H]|auto].
Qed.

Lemma init_classes_witness :
  attached plain_page 1 plain_input 0 page_body ∧
  (∃ w' c',
    new_MaterialSlider (Some 1) false plain_page = (Normal tt, w') ∧
    nodes w' !! 1 = Some c' ∧
    IS_UPGRADED ∈ classList c' ∧
    (IS_LOWEST_VALUE ∈ classList c' ↔
     ((value plain_input - min plain_input) / (max plain_input - min plain_input) =? 0)%float = true) ∧
    (∀ cl, cl ≠ IS_UPGRADED → cl ≠ IS_LOWEST_VALUE →
           cl ∈ classList c' ↔ cl ∈ classList plain_input)).
Proof.
  assert (H1 : attached plain_page 1 plain_input 0 page_body)
    by (unfold attached; split_and!; [reflexivity|reflexivity|reflexivity|apply list_elem_of_In; cbn; tauto|discriminate]).
  split; [exact H1|].
  exact (init_classes (plain_page) (1) (plain_input) (0) (page_body) (false) H1).
Defined.

(** X5. The constructor leaves the rest of the document alone: it adds one
    node in the alternate mode and four otherwise, every node other than
    the control and its parent is as it was, and of the parent only the
    list of children changes. *)
Theorem init_frame w el c p pn ie :
  attached w el c p pn ->
  ∃ w' pn',
    new_MaterialSlider (Some el) ie w = (Normal tt, w') ∧
    length (nodes w') = length (nodes w) + (if ie then 1 else 4) ∧
    (∀ i, i < length (nodes w) → i ≠ el → i ≠ p →
          nodes w' !! i = nodes w !! i) ∧
    nodes w' !! p = Some pn' ∧
    pn' = set_children (children pn') pn.
Proof.
  intros Hat.
  destruct (new_MaterialSlider_constructs w el c p pn ie Hat) as (w' & Hrun & Hcon).
  destruct Hcon as (_ & _ & Hl & _ & Hpe & _ & _ & Hothers).
  cbn [with_self self isIE_ nodes] in *.
  eexists w', _. split_and!; [exact Hrun| |exact Hothers|exact Hpe|reflexivity].
  rewrite Hl. now destruct ie.
Qed.

Lemma init_frame_witness :
  attached plain_page 1 plain_input 0 page_body ∧
  (∃ w' pn',
    new_MaterialSlider (Some 1) false plain_page = (Normal tt, w') ∧
    length (nodes w') = length (nodes plain_page) + (if false then 1 else 4) ∧
    (∀ i, i < length (nodes plain_page) → i ≠ 1 → i ≠ 0 →
          nodes w' !! i = nodes plain_page !! i) ∧
    nodes w' !! 0 = Some pn' ∧
    pn' = set_children (children pn') page_body).
Proof.
  assert (H1 : attached plain_page 1 plain_input 0 page_body)
    by (unfold attached; split_and!; [reflexivity|reflexivity|reflexivity|apply list_elem_of_In; cbn; tauto|discriminate]).
  split; [exact H1|].
  exact (init_frame (plain_page) (1) (plain_input) (0) (page_body) (false) H1).
Defined.

(** X6. The constructor registers three callbacks on the control, for
    [input], [change] and [mouseup] in this order, after the callbacks the
    control had; the nodes it creates carry none. *)
Theorem init_registers_callbacks w el c p pn ie :
  attached w el c p pn ->
  ∃ w' c',
    new_MaterialSlider (Some el) ie w = (Normal tt, w') ∧
    nodes w' !! el = Some c' ∧
    listeners c' =
      (listeners c ++
       [("input", OnInput); ("change", OnChange); ("mouseup", OnMouseUp)])%list ∧
    (∀ i n, (length (nodes w) ≤ i)%nat → nodes w' !! i = Some n → listeners n = []).
Proof.
  intros Hat.
  destruct (new_MaterialSlider_constructs w el c p pn ie Hat) as (w' & Hrun & Hcon).
  destruct Hcon as (_ & _ & Hl & Hce & _ & Hk & Hdeco & _).
  cbn [with_self self isIE_ nodes] in *.
  eexists w', _. split_and!; [exact Hrun|exact Hce|reflexivity|].
  intros i n Hi Hn. pose proof (lookup_lt_Some _ _ _ Hn) as Hlt.
  rewrite Hl in Hlt. destruct ie.
  - assert (i = length (nodes w)) as -> by lia.
    rewrite Hk in Hn. now injection Hn as <-.
  - destruct (Hdeco eq_refl) as (Hbf & Hlo & Hup).
    assert (i = length (nodes w) ∨ i = length (nodes w) + 1 ∨
            i = length (nodes w) + 2 ∨ i = length (nodes w) + 3)
      as [-> | [-> | [-> | ->]]] by lia.
    + rewrite Hk in Hn. now injection Hn as <-.
    + rewrite Hbf in Hn. now injection Hn as <-.
    + rewrite Hlo in Hn. now injection Hn as <-.
    + rewrite Hup in Hn. now injection Hn as <-.
Qed.

Lemma init_registers_callbacks_witness :
  attached plain_page 1 plain_input 0 page_body ∧
  (∃ w' c',
    new_MaterialSlider (Some 1) false plain_page = (Normal tt, w') ∧
    nodes w' !! 1 = Some c' ∧
    listeners c' =
      (listeners plain_input ++
       [("input", OnInput); ("change", OnChange); ("mouseup", OnMouseUp)])%list ∧
    (∀ i n, (length (nodes plain_page) ≤ i)%nat → nodes w' !! i = Some n → listeners n = [])).
Proof.
  assert (H1 : attached plain_page 1 plain_input 0 page_body)
    by (unfold attached; split_and!; [reflexivity|reflexivity|reflexivity|apply list_elem_of_In; cbn; tauto|discriminate]).
  split; [exact H1|].
  exact (init_registers_callbacks (plain_page) (1) (plain_input) (0) (page_body) (false) H1).
Defined.

(** X7. [init] is not idempotent.  Called again on the state the constructor
    left, it completes and decorates once more: it adds as many nodes
    again, wraps the control in a new container that takes the control's
    place inside the old one, registers the three callbacks a second time
    and, outside the alternate mode, makes the component refer to new fill
    regions, the old ones staying in the document as they were. *)
Theorem init_twice w el c p pn (ie : bool) :
  attached w el c p pn ->
  let k := length (nodes w) in
  let k1 := k + (if ie then 1 else 4) in
  ∃ w1 w2 c2,
    new_MaterialSlider (Some el) ie w = (Normal tt, w1) ∧
    init w1 = (Normal tt, w2) ∧
    length (nodes w1) = k1 ∧
    length (nodes w2) = k1 + (if ie then 1 else 4) ∧
    nodes w2 !! el = Some c2 ∧ parentElement c2 = Some k1 ∧
    listeners c2 = (listeners c ++ registered ++ registered)%list ∧
    nodes w2 !! k =
      Some (deco (container_class ie) p (if ie then [k1] else [k1; k + 1])
                 (mkStyle None None)) ∧
    nodes w2 !! k1 =
      Some (deco (container_class ie) k (if ie then [el] else [el; k1 + 1])
                 (mkStyle None None)) ∧
    (ie = false →
     backgroundLower_ (self w2) = Some (k1 + 2) ∧
     backgroundUpper_ (self w2) = Some (k1 + 3) ∧
     nodes w2 !! (k + 2) = nodes w1 !! (k + 2) ∧
     nodes w2 !! (k + 3) = nodes w1 !! (k + 3)).
Proof.
  intros Hat k k1.
  destruct (new_MaterialSlider_constructs w el c p pn ie Hat) as (w1 & Hrun1 & Hcon1).
  destruct Hcon1 as (_ & Hs1 & Hl1 & Hce1 & _ & Hk1 & _).
  cbn [with_self self isIE_ nodes] in *. fold k in Hl1, Hce1, Hk1, Hs1.
  assert (Hel : el < k) by (destruct Hat as (Hc & _); now apply lookup_lt_Some in Hc).
  assert (He1 : element_ (self w1) = Some el) by (rewrite Hs1; now destruct ie).
  assert (Hie1 : isIE_ (self w1) = ie) by (rewrite Hs1; now destruct ie).
  assert (Hlk : length (nodes w1) = k1) by (rewrite Hl1; unfold k1; now destruct ie).
  eassert (Hat1 : attached w1 el _ k _).
  { unfold attached. split_and!; [exact Hce1|reflexivity|exact Hk1| |lia].
    cbn. destruct ie; apply list_elem_of_In; cbn; tauto. }
  destruct (init_constructs w1 el _ k _ He1 Hat1) as (w2 & Hrun2 & Hcon2).
  destruct Hcon2 as (_ & Hs2 & Hl2 & Hce2 & Hpe2 & Hk2 & _ & Hothers2).
  rewrite Hie1, Hlk in *.
  eexists w1, w2, _. split; [exact Hrun1|]. split; [exact Hrun2|].
  split; [exact Hlk|]. split; [rewrite Hl2; unfold k1; now destruct ie|].
  split; [exact Hce2|]. split; [reflexivity|].
  split; [cbn; now rewrite <- app_assoc|].
  split; [|split; [exact Hk2|]].
  - rewrite Hpe2. unfold deco, set_children. cbn [tagName classList parentElement
      children style listeners value min max disabled]. do 2 f_equal.
    destruct ie.
    + rewrite replace_child by (try apply NoDup_singleton; lia). cbn.
      now rewrite bool_decide_eq_true_2.
    + rewrite replace_child; [|apply NoDup_cons; split;
        [rewrite list_elem_of_singleton; lia|apply NoDup_singleton]|lia].
      cbn. rewrite bool_decide_eq_true_2 by reflexivity.
      now rewrite bool_decide_eq_false_2 by lia.
  - intros ->. rewrite Hs2. split_and!; try reflexivity;
      apply Hothers2; unfold k1; lia.
Qed.

Lemma init_twice_witness :
  attached plain_page 1 plain_input 0 page_body ∧
  (∃ w1 w2 c2,
    new_MaterialSlider (Some 1) false plain_page = (Normal tt, w1) ∧
    init w1 = (Normal tt, w2) ∧
    length (nodes w1) = 6 ∧
    length (nodes w2) = 6 + (if false then 1 else 4) ∧
    nodes w2 !! 1 = Some c2 ∧ parentElement c2 = Some 6 ∧
    listeners c2 = (listeners plain_input ++ registered ++ registered)%list ∧
    nodes w2 !! 2 =
      Some (deco (container_class false) 0 (if false then [6] else [6; 2 + 1])
                 (mkStyle None None)) ∧
    nodes w2 !! 6 =
      Some (deco (container_class false) 2 (if false then [1] else [1; 6 + 1])
                 (mkStyle None None)) ∧
    (false = false →
     backgroundLower_ (self w2) = Some (6 + 2) ∧
     backgroundUpper_ (self w2) = Some (6 + 3) ∧
     nodes w2 !! (2 + 2) = nodes w1 !! (2 + 2) ∧
     nodes w2 !! (2 + 3) = nodes w1 !! (2 + 3))).
Proof.
  assert (H1 : attached plain_page 1 plain_input 0 page_body)
    by (unfold attached; split_and!; [reflexivity|reflexivity|reflexivity|apply list_elem_of_In; cbn; tauto|discriminate]).
  split; [exact H1|].
  exact (init_twice (plain_page) (1) (plain_input) (0) (page_body) (false) H1).
Defined.



(** X9. The recomputation routine is idempotent on an upgraded control: run on
    the state it has just left, it completes and changes nothing. *)
Theorem updateValueStyles_idempotent w el c :
  control w el c ->
  upgraded w ->
  ∃ w',
    updateValueStyles_ w = (Normal tt, w') ∧
    updateValueStyles_ w' = (Normal tt, w').
Proof.
  intros Hctl Hup.
  destruct (updateValueStyles_settles w el c Hctl Hup) as (w' & c' & Hrun & Hset & _).
  exists w'. split; [exact Hrun|]. now apply (settled_fixpoint w' el c').
Qed.

Lemma updateValueStyles_idempotent_witness :
  control mid_slider 1 mid_control ∧
  upgraded mid_slider ∧
  (∃ w',
    updateValueStyles_ mid_slider = (Normal tt, w') ∧
    updateValueStyles_ w' = (Normal tt, w')).
Proof.
  assert (H1 : control mid_slider 1 mid_control)
    by (split; vm_compute; reflexivity).
  assert (H2 : upgraded mid_slider)
    by (split; [eexists 1, _; split; vm_compute; reflexivity|intros _; exists 4, 5; unfold decorated; split_and!; try (vm_compute; reflexivity); try (vm_compute; eexists; reflexivity); discriminate]).
  split; [exact H1|].
  split; [exact H2|].
  exact (updateValueStyles_idempotent (mid_slider) (1) (mid_control) H1 H2).
Defined.

(** X10. Right after construction on a control that had no callbacks, an
    [input] event and a [change] event fired at the control change
    nothing: the one callback that runs recomputes what [init] has
    computed already. *)
Theorem events_after_construction w el c p pn ie :
  attached w el c p pn ->
  listeners c = [] ->
  ∃ w',
    new_MaterialSlider (Some el) ie w = (Normal tt, w') ∧
    dispatchEvent "input" el w' = w' ∧
    dispatchEvent "change" el w' = w'.
Proof.
  intros Hat Hls.
  destruct (new_MaterialSlider_constructs w el c p pn ie Hat) as (w' & Hrun & Hcon).
  destruct Hcon as (_ & Hs & _ & Hce & _ & _ & Hdeco & _).
  cbn [with_self self isIE_ nodes] in *.
  exists w'. split; [exact Hrun|].
  eassert (Hset : settled w' el _).
  { split_and!.
    - split; [|exact Hce]. rewrite Hs. now destruct ie.
    - cbn [classList]. change (fraction_of _) with (fraction_of c).
      rewrite elem_of_token_add, marked_spec.
      split; [intros [H|H]; [discriminate|exact H]|auto].
    - rewrite Hs. destruct ie; [discriminate|]. intros _.
      destruct (Hdeco eq_refl) as (_ & Hlo & Hup).
      eexists _, _, _, _. split_and!; [reflexivity|reflexivity|exact Hlo|exact Hup| |];
        reflexivity. }
  eassert (Hd : _ ∧ _).
  { apply (dispatch_input_change w' el _ Hce). cbn. now rewrite Hls. }
  destruct Hd as [-> ->]. rewrite (settled_fixpoint w' el _ Hset). now split.
Qed.

Lemma events_after_construction_witness :
  attached plain_page 1 plain_input 0 page_body ∧
  listeners plain_input = [] ∧
  (∃ w',
    new_MaterialSlider (Some 1) false plain_page = (Normal tt, w') ∧
    dispatchEvent "input" 1 w' = w' ∧
    dispatchEvent "change" 1 w' = w').
Proof.
  assert (H1 : attached plain_page 1 plain_input 0 page_body)
    by (unfold attached; split_and!; [reflexivity|reflexivity|reflexivity|apply list_elem_of_In; cbn; tauto|discriminate]).
  assert (H2 : listeners plain_input = [])
    by (reflexivity).
  split; [exact H1|].
  split; [exact H2|].
  exact (events_after_construction (plain_page) (1) (plain_input) (0) (page_body) (false) H1 H2).
Defined.



(** X12. Of two calls to [disable] or [enable] in a row the last one wins:
    from every state, the second call gives the completion and the state
    it gives when called alone. *)
Theorem setEnabled_last_wins w (a b : bool) :
  (if b then enable else disable) (snd ((if a then enable else disable) w)) =
  (if b then enable else disable) w.
Proof.
  destruct (setEnabled_cases w a) as [Ha|[Ha|(el & c & Hctl & Ha)]];
    rewrite Ha; cbn [snd]; try reflexivity.
  rewrite (setEnabled_normal _ el _ b (control_put w el c _ Hctl)).
  rewrite (setEnabled_normal w el c b Hctl). now rewrite put_put.
Qed.

(** X13. [enable] on a control that is enabled, and [disable] on one that is
    disabled, complete and change nothing; so switching the control to the
    other setting and back restores the state exactly. *)
Theorem setEnabled_round_trip w el c (b : bool) :
  control w el c ->
  disabled c = negb b ->
  (if b then enable else disable) w = (Normal tt, w) ∧
  (if b then enable else disable)
    (snd ((if negb b then enable else disable) w)) = (Normal tt, w).
Proof.
  intros Hctl Hdis.
  assert (H1 : (if b then enable else disable) w = (Normal tt, w)).
  { rewrite (setEnabled_normal w el c b Hctl), <- Hdis, set_disabled_same.
    destruct Hctl as [_ Hc]. now rewrite put_same. }
  split; [exact H1|].
  rewrite (setEnabled_normal w el c (negb b) Hctl). cbn [snd].
  rewrite (setEnabled_normal _ el _ b (control_put w el c _ Hctl)).
  rewrite put_put.
  change (set_disabled (negb b) (set_disabled (negb (negb b)) c))
    with (set_disabled (negb b) c).
  rewrite <- (setEnabled_normal w el c b Hctl). exact H1.
Qed.

Lemma setEnabled_round_trip_witness :
  control mid_slider 1 mid_control ∧
  disabled mid_control = negb true ∧
  (if true then enable else disable) mid_slider = (Normal tt, mid_slider) ∧
  (if true then enable else disable)
    (snd ((if negb true then enable else disable) mid_slider)) = (Normal tt, mid_slider).
Proof.
  assert (H1 : control mid_slider 1 mid_control)
    by (split; vm_compute; reflexivity).
  assert (H2 : disabled mid_control = negb true)
    by (reflexivity).
  split; [exact H1|].
  split; [exact H2|].
  exact (setEnabled_round_trip (mid_slider) (1) (mid_control) (true) H1 H2).
Defined.

(** X14. On a component that holds no control, every method other than [init]
    throws a [TypeError] and writes nothing. *)
Theorem methods_without_control w :
  element_ (self w) = None ->
  updateValueStyles_ w = (Throw TypeError, w) ∧
  (∀ target, onInput_ target w = (Throw TypeError, w)) ∧
  (∀ target, onChange_ target w = (Throw TypeError, w)) ∧
  disable w = (Throw TypeError, w) ∧
  enable w = (Throw TypeError, w) ∧
  (∀ v, change v w = (Throw TypeError, w)).
Proof.
  intros He.
  assert (Hu : updateValueStyles_ w = (Throw TypeError, w)).
  { unfold updateValueStyles_.
    rewrite (bind_normal _ _ w (self w) w) by reflexivity. now rewrite He. }
  split_and!; try exact Hu; try (intros; exact Hu).
  - unfold disable. rewrite (bind_normal _ _ w (self w) w) by reflexivity.
    now rewrite He.
  - unfold enable. rewrite (bind_normal _ _ w (self w) w) by reflexivity.
    now rewrite He.
  - intros [x|]; [destruct (truthy x) eqn:Hx|].
    + unfold change. rewrite Hx.
      unfold bind at 1. unfold bind at 1. cbn [getThis]. now rewrite He.
    + now rewrite (change_falsy (Some x) Hx).
    + now rewrite (change_falsy None I).
Qed.

Lemma methods_without_control_witness :
  element_ (self page_without_control) = None ∧
  updateValueStyles_ page_without_control = (Throw TypeError, page_without_control) ∧
  (∀ target, onInput_ target page_without_control = (Throw TypeError, page_without_control)) ∧
  (∀ target, onChange_ target page_without_control = (Throw TypeError, page_without_control)) ∧
  disable page_without_control = (Throw TypeError, page_without_control) ∧
  enable page_without_control = (Throw TypeError, page_without_control) ∧
  (∀ v, change v page_without_control = (Throw TypeError, page_without_control)).
Proof.
  assert (H1 : element_ (self page_without_control) = None)
    by (reflexivity).
  split; [exact H1|].
  exact (methods_without_control (page_without_control) H1).
Defined.

(** X15. With the value at the highest of a range [min < max] whose width
    [max - min] is finite, the recomputation routine gives the lower fill
    region the whole track and the upper one nothing, and leaves the
    control without the marker class. *)
Theorem updateValueStyles_at_max w el c lo up :
  control w el c ->
  isIE_ (self w) = false ->
  decorated w lo up ->
  is_finite (max c - min c)%float = true ->
  (min c <? max c)%float = true ->
  (value c =? max c)%float = true ->
  ∃ w' c' nl nu,
    updateValueStyles_ w = (Normal tt, w') ∧
    nodes w' !! el = Some c' ∧ ¬ (IS_LOWEST_VALUE ∈ classList c') ∧
    nodes w' !! lo = Some nl ∧ nodes w' !! up = Some nu ∧
    style nl = mkStyle (Some 1%float) (Some 1%float) ∧
    style nu = mkStyle (Some 0%float) (Some 0%float).
Proof.
  intros Hctl Hie Hdec Hfin Hlt Heq.
  assert (Hup : upgraded w).
  { split; [now exists el, c|]. intros _. now exists lo, up. }
  destruct (updateValueStyles_result w el c Hctl Hup)
    as (w' & c' & Hrun & Hc' & _ & _ & _ & Hcl & Hsh).
  destruct (Hsh Hie lo up Hdec) as (nl & nu & Hnl & Hnu & Sl & Su).
  unfold fraction_of in *.
  pose proof (fraction_at_max _ _ _ Hfin Hlt Heq) as Hf.
  exists w', c', nl, nu. split_and!; try assumption.
  - rewrite Hcl, marked_spec. unfold fraction_of. rewrite Hf. discriminate.
  - now rewrite Sl, Hf.
  - now rewrite Su, Hf.
Qed.

Lemma updateValueStyles_at_max_witness :
  control high_slider 1 high_control ∧
  isIE_ (self high_slider) = false ∧
  decorated high_slider 4 5 ∧
  is_finite (max high_control - min high_control)%float = true ∧
  (min high_control <? max high_control)%float = true ∧
  (value high_control =? max high_control)%float = true ∧
  (∃ w' c' nl nu,
    updateValueStyles_ high_slider = (Normal tt, w') ∧
    nodes w' !! 1 = Some c' ∧ ¬ (IS_LOWEST_VALUE ∈ classList c') ∧
    nodes w' !! 4 = Some nl ∧ nodes w' !! 5 = Some nu ∧
    style nl = mkStyle (Some 1%float) (Some 1%float) ∧
    style nu = mkStyle (Some 0%float) (Some 0%float)).
Proof.
  assert (H1 : control high_slider 1 high_control)
    by (split; vm_compute; reflexivity).
  assert (H2 : isIE_ (self high_slider) = false)
    by (reflexivity).
  assert (H3 : decorated high_slider 4 5)
    by (unfold decorated; split_and!; try (vm_compute; reflexivity); try (vm_compute; eexists; reflexivity); discriminate).
  assert (H4 : is_finite (max high_control - min high_control)%float = true)
    by (reflexivity).
  assert (H5 : (min high_control <? max high_control)%float = true)
    by (reflexivity).
  assert (H6 : (value high_control =? max high_control)%float = true)
    by (reflexivity).
  split; [exact H1|].
  split; [exact H2|].
  split; [exact H3|].
  split; [exact H4|].
  split; [exact H5|].
  split; [exact H6|].
  exact (updateValueStyles_at_max (high_slider) (1) (high_control) (4) (5) H1 H2 H3 H4 H5 H6).
Defined.

(** X16. With the value at the lowest of a range [min < max], [min] finite,
    the recomputation routine gives the lower fill region a share that is
    a zero and the upper one the whole track, and leaves the marker class
    on the control. *)
Theorem updateValueStyles_at_min w el c lo up :
  control w el c ->
  isIE_ (self w) = false ->
  decorated w lo up ->
  is_finite (min c) = true ->
  (min c <? max c)%float = true ->
  (value c =? min c)%float = true ->
  ∃ w' c' nl nu f,
    updateValueStyles_ w = (Normal tt, w') ∧
    nodes w' !! el = Some c' ∧ IS_LOWEST_VALUE ∈ classList c' ∧
    nodes w' !! lo = Some nl ∧ nodes w' !! up = Some nu ∧
    (f =? 0)%float = true ∧
    style nl = mkStyle (Some f) (Some f) ∧
    style nu = mkStyle (Some 1%float) (Some 1%float).
Proof.
  intros Hctl Hie Hdec Hfin Hlt Heq.
  assert (Hup : upgraded w).
  { split; [now exists el, c|]. intros _. now exists lo, up. }
  destruct (updateValueStyles_result w el c Hctl Hup)
    as (w' & c' & Hrun & Hc' & _ & _ & _ & Hcl & Hsh).
  destruct (Hsh Hie lo up Hdec) as (nl & nu & Hnl & Hnu & Sl & Su).
  unfold fraction_of in *.
  pose proof (fraction_at_min _ _ _ Hfin Hlt Heq) as Hf.
  exists w', c', nl, nu, ((value c - min c) / (max c - min c))%float.
  split_and!; try assumption.
  - rewrite Hcl, marked_spec. exact Hf.
  - now rewrite Su, (one_minus_zero _ Hf).
Qed.

Lemma updateValueStyles_at_min_witness :
  control low_slider 1 low_control ∧
  isIE_ (self low_slider) = false ∧
  decorated low_slider 4 5 ∧
  is_finite (min low_control) = true ∧
  (min low_control <? max low_control)%float = true ∧
  (value low_control =? min low_control)%float = true ∧
  (∃ w' c' nl nu f,
    updateValueStyles_ low_slider = (Normal tt, w') ∧
    nodes w' !! 1 = Some c' ∧ IS_LOWEST_VALUE ∈ classList c' ∧
    nodes w' !! 4 = Some nl ∧ nodes w' !! 5 = Some nu ∧
    (f =? 0)%float = true ∧
    style nl = mkStyle (Some f) (Some f) ∧
    style nu = mkStyle (Some 1%float) (Some 1%float)).
Proof.
  assert (H1 : control low_slider 1 low_control)
    by (split; vm_compute; reflexivity).
  assert (H2 : isIE_ (self low_slider) = false)
    by (reflexivity).
  assert (H3 : decorated low_slider 4 5)
    by (unfold decorated; split_and!; try (vm_compute; reflexivity); try (vm_compute; eexists; reflexivity); discriminate).
  assert (H4 : is_finite (min low_control) = true)
    by (reflexivity).
  assert (H5 : (min low_control <? max low_control)%float = true)
    by (reflexivity).
  assert (H6 : (value low_control =? min low_control)%float = true)
    by (reflexivity).
  split; [exact H1|].
  split; [exact H2|].
  split; [exact H3|].
  split; [exact H4|].
  split; [exact H5|].
  split; [exact H6|].
  exact (updateValueStyles_at_min (low_slider) (1) (low_control) (4) (5) H1 H2 H3 H4 H5 H6).
Defined.

(** X17. [init] on a control that has no parent throws a [TypeError] right
    after it has made the container: the only change is one new [div]
    that carries the container class of the mode and is attached to
    nothing.  The control gets no callback and no [is-upgraded] class, and
    the component's fields stay as they were. *)
Theorem init_detached w el c :
  element_ (self w) = Some el ->
  nodes w !! el = Some c ->
  parentElement c = None ->
  init w =
  (Throw TypeError,
   mkWorld (nodes w ++ [mkNode "div" [container_class (isIE_ (self w))] None []
                               (mkStyle None None) [] nan nan nan false])
           (activeElement w) (self w)).
Proof.
  intros He Hc Hpar.
  pose proof (lookup_lt_Some _ _ _ Hc) as Hel.
  remember (length (nodes w)) as k eqn:Hk.
  unfold init. step_this. rewrite He.
  unfold classList_add.
  destruct (isIE_ (self w)); step_create; step_upd; step_get;
    rewrite Hpar; cbn [deref]; norm; unfold bind at 1, throw;
    unfold put, grow, blank, set_classList, token_add, container_class;
    cbn [nodes activeElement self classList tagName parentElement children
         style listeners value min max disabled bool_decide decide];
    rewrite Hk, insert_app_r_alt, Nat.sub_diag by lia; reflexivity.
Qed.

Lemma init_detached_witness :
  element_ (self lone_page) = Some 0 ∧
  nodes lone_page !! 0 = Some lone_input ∧
  parentElement lone_input = None ∧
  init lone_page =
  (Throw TypeError,
   mkWorld (nodes lone_page ++ [mkNode "div" [container_class (isIE_ (self lone_page))] None []
                               (mkStyle None None) [] nan nan nan false])
           (activeElement lone_page) (self lone_page)).
Proof.
  assert (H1 : element_ (self lone_page) = Some 0)
    by (reflexivity).
  assert (H2 : nodes lone_page !! 0 = Some lone_input)
    by (reflexivity).
  assert (H3 : parentElement lone_input = None)
    by (reflexivity).
  split; [exact H1|].
  split; [exact H2|].
  split; [exact H3|].
  exact (init_detached (lone_page) (0) (lone_input) H1 H2 H3).
Defined.

